(** * Quotations.ts: quotation stripping for e-mail bodies

    A shallow embedding of [src/Quotations.ts] (talonjs): the dispatcher
    [extractFrom], the plain-text pipeline [extractFromPlain], the
    preprocessor, the line classifier [markMessageLines] and the quotation
    detector [processMarkedLines], together with the fragment of the
    JavaScript run time they rely on (values, number coercion, string and
    array methods, regular-expression matching).

    A character of a model string stands for one UTF-16 code unit; the
    development fixes code units below 256. *)

From Stdlib Require Import ZArith Lia Ascii.
From Stdlib Require String.
From stdpp Require Import base list strings.

Local Open Scope Z_scope.

(* ================================================================== *)
(** * JavaScript values                                                *)
(* ================================================================== *)

Module JS.

(** A Number as far as this program can observe one: the operations the
    source applies to numbers are comparison with 0, subtraction of 1,
    [isFinite], truncation to an integer and use as an index.  A finite
    number is kept as its floor and a flag telling whether it has a
    fractional part. *)
Inductive number : Type :=
| NaN
| Infinity (negative : bool)
| Real (floor : Z) (frac : bool).

Definition Int (z : Z) : number := Real z false.

Inductive value : Type :=
| VUndefined
| VNumber (n : number)
| VString (s : string).

Inductive Error : Type := TypeError.

(** How the evaluation of a piece of code ends. *)
Inductive Completion (A : Type) : Type :=
| Normal (a : A)
| Throw (e : Error)
| Diverge.
Arguments Normal {A} a.
Arguments Throw {A} e.
Arguments Diverge {A}.

Definition bind {A B} (c : Completion A) (k : A -> Completion B) : Completion B :=
  match c with
  | Normal a => k a
  | Throw e => Throw e
  | Diverge => Diverge
  end.

#[global] Instance number_eq_dec : EqDecision number.
Proof. solve_decision. Defined.
#[global] Instance value_eq_dec : EqDecision value.
Proof. solve_decision. Defined.

(** ** Strings *)

Definition LF : string := String "010" EmptyString.
Definition CR : string := String "013" EmptyString.

Definition str1 (c : ascii) : string := String c EmptyString.

(** [s.indexOf(pat)] *)
Definition indexOf (s pat : string) : Z :=
  match String.index 0 pat s with
  | Some n => Z.of_nat n
  | None => -1
  end.

(** [s.substring(start)] for an integer [start] already clamped below *)
Definition substringFrom (s : string) (start : nat) : string :=
  String.substring start (String.length s - start) s.

(** [s[k]] for an integer [k] *)
Definition charAt (s : string) (k : Z) : value :=
  if k <? 0 then VUndefined
  else match String.get (Z.to_nat k) s with
       | Some c => VString (str1 c)
       | None => VUndefined
       end.

(** WhiteSpace and LineTerminator code units below 256:
    TAB, LF, VT, FF, CR, SP, NBSP. *)
Definition isWhiteSpace (c : ascii) : bool :=
  let n := nat_of_ascii c in
  bool_decide (n = 9 \/ n = 10 \/ n = 11 \/ n = 12 \/ n = 13 \/ n = 32 \/ n = 160)%nat.

Fixpoint trimStart (s : string) : string :=
  match s with
  | EmptyString => EmptyString
  | String c s' => if isWhiteSpace c then trimStart s' else s
  end.

Fixpoint trimEnd (s : string) : string :=
  match s with
  | EmptyString => EmptyString
  | String c s' =>
      match trimEnd s' with
      | EmptyString => if isWhiteSpace c then EmptyString else str1 c
      | t => String c t
      end
  end.

(** [s.trim()] *)
Definition trim (s : string) : string := trimEnd (trimStart s).

(** [arr.join(sep)] on an array of strings *)
Definition join (sep : string) (l : list string) : string := String.concat sep l.

(** ** Number coercion *)

Definition digitVal (base : Z) (c : ascii) : option Z :=
  let n := Z.of_nat (nat_of_ascii c) in
  let d := if (48 <=? n) && (n <=? 57) then n - 48
           else if (97 <=? n) && (n <=? 102) then n - 87
           else if (65 <=? n) && (n <=? 70) then n - 55
           else 99 in
  if d <? base then Some d else None.

(** Reads the longest run of digits in [base]: its value, its length and
    what follows. *)
Fixpoint spanDigits (base : Z) (s : string) (acc : Z) (count : nat) : Z * nat * string :=
  match s with
  | EmptyString => (acc, count, s)
  | String c s' =>
      match digitVal base c with
      | Some d => spanDigits base s' (base * acc + d) (S count)
      | None => (acc, count, s)
      end
  end.

Definition isChar (c : ascii) (a b : string) : bool :=
  bool_decide (str1 c = a) || bool_decide (str1 c = b).

(** ExponentPart (or nothing) up to the end of the literal. *)
Definition parseExponent (s : string) : option Z :=
  match s with
  | EmptyString => Some 0
  | String c s' =>
      if isChar c "e" "E" then
        let '(sign, s'') :=
          match s' with
          | String d t => if isChar d "-" "-" then (-1, t)
                          else if isChar d "+" "+" then (1, t) else (1, s')
          | EmptyString => (1, s')
          end in
        match spanDigits 10 s'' 0 0 with
        | (v, S _, EmptyString) => Some (sign * v)
        | _ => None
        end
      else None
  end.

(** StrUnsignedDecimalLiteral other than Infinity: the pair [(m, e)]
    stands for [m * 10^e]. *)
Definition parseUnsignedDecimal (s : string) : option (Z * Z) :=
  let '(ip, ni, rest) := spanDigits 10 s 0 0 in
  let '(m, nf, rest') :=
    match rest with
    | String c t =>
        if isChar c "." "." then
          let '(v, n, r) := spanDigits 10 t ip 0 in (v, n, r)
        else (ip, 0%nat, rest)
    | EmptyString => (ip, 0%nat, rest)
    end in
  if bool_decide (ni + nf = 0)%nat then None
  else match parseExponent rest' with
       | Some e => Some (m, e - Z.of_nat nf)
       | None => None
       end.

(** The Number for [m * 10^e], negated when [neg]: the exact value rounded
    to the nearest double, ties to the even significand.  [k] is the binary
    exponent of the value and [2^p] the spacing of the doubles around it
    (53 significant bits, and not below [2^-1074]); [mant * 2^p] is the
    double, an infinity from [2^1024] on.  The floor and the fractional
    flag are read on the double. *)
Definition decimalToNumber (neg : bool) (m e : Z) : number :=
  if m =? 0 then Real 0 false
  else
    let num := if 0 <=? e then m * 10 ^ e else m in
    let den := if 0 <=? e then 1 else 10 ^ (- e) in
    let atLeast (k : Z) : bool :=
      if 0 <=? k then den * 2 ^ k <=? num else den <=? num * 2 ^ (- k) in
    let k0 := Z.log2 num - Z.log2 den in
    let k := if atLeast k0 then (if atLeast (k0 + 1) then k0 + 1 else k0) else k0 - 1 in
    let p := Z.max (k - 52) (-1074) in
    let n' := if p <? 0 then num * 2 ^ (- p) else num in
    let d' := if p <? 0 then den else den * 2 ^ p in
    let q := n' / d' in
    let r := n' mod d' in
    let mant := if 2 * r <? d' then q
                else if d' <? 2 * r then q + 1
                else if Z.even q then q else q + 1 in
    if (0 <=? p) && (2 ^ 1024 <=? mant * 2 ^ p) then Infinity neg
    else
      let fl := if 0 <=? p then mant * 2 ^ p else mant / 2 ^ (- p) in
      let fr := if 0 <=? p then false else negb (mant mod 2 ^ (- p) =? 0) in
      if neg then (if fr then Real (- fl - 1) true else Real (- fl) false)
      else Real fl fr.

Definition parseRadix (base : Z) (s : string) : number :=
  match spanDigits base s 0 0 with
  | (v, S _, EmptyString) => decimalToNumber false v 0
  | _ => NaN
  end.

(** StringToNumber *)
Definition StringToNumber (s : string) : number :=
  let t := trim s in
  match t with
  | EmptyString => Real 0 false
  | String c t' =>
      let radix :=
        match t with
        | String z (String x r) =>
            if bool_decide (str1 z = "0") then
              if isChar x "x" "X" then Some (16, r)
              else if isChar x "o" "O" then Some (8, r)
              else if isChar x "b" "B" then Some (2, r)
              else None
            else None
        | _ => None
        end in
      match radix with
      | Some (base, r) => parseRadix base r
      | None =>
          let '(neg, u) :=
            if isChar c "-" "-" then (true, t')
            else if isChar c "+" "+" then (false, t') else (false, t) in
          if bool_decide (u = "Infinity") then Infinity neg
          else match parseUnsignedDecimal u with
               | Some (m, e) => decimalToNumber neg m e
               | None => NaN
               end
      end
  end.

(** ToNumber *)
Definition ToNumber (v : value) : number :=
  match v with
  | VUndefined => NaN
  | VNumber n => n
  | VString s => StringToNumber s
  end.

(** The global [isFinite] *)
Definition isFinite (v : value) : bool :=
  match ToNumber v with
  | Real _ _ => true
  | _ => false
  end.

(** [n > 0] *)
Definition gt0 (n : number) : bool :=
  match n with
  | NaN => false
  | Infinity neg => negb neg
  | Real z fr => (0 <? z) || ((z =? 0) && fr)
  end.

(** [n - 1] *)
Definition sub1 (n : number) : number :=
  match n with
  | Real z fr => Real (z - 1) fr
  | _ => n
  end.

(** [s[n]] for a Number [n]: a character when [n] is an integer index. *)
Definition charAtNumber (s : string) (n : number) : value :=
  match n with
  | Real z false => charAt s z
  | _ => VUndefined
  end.

Inductive intinf : Type := MinusInf | Fin (z : Z) | PlusInf.

(** ToIntegerOrInfinity *)
Definition ToIntegerOrInfinity (v : value) : intinf :=
  match ToNumber v with
  | NaN => Fin 0
  | Infinity neg => if neg then MinusInf else PlusInf
  | Real z fr => Fin (if (z <? 0) && fr then z + 1 else z)
  end.

(** ** Arrays *)

(** A relative index of [slice], clamped to [0 .. len]. *)
Definition relIndex (len : nat) (k : intinf) : nat :=
  match k with
  | MinusInf => 0%nat
  | PlusInf => len
  | Fin z => if z <? 0 then Z.to_nat (Z.max (Z.of_nat len + z) 0)
             else Nat.min (Z.to_nat z) len
  end.

(** [arr.slice(start, end)]; [end] may be [undefined]. *)
Definition slice {A} (l : list A) (start end_ : value) : list A :=
  let len := length l in
  let k := relIndex len (ToIntegerOrInfinity start) in
  let final := match end_ with
               | VUndefined => len
               | _ => relIndex len (ToIntegerOrInfinity end_)
               end in
  take (final - k) (drop k l).

(** [s.substring(start)]: the start clamped to [0 .. len]. *)
Definition clampIndex (len : nat) (k : intinf) : nat :=
  match k with
  | MinusInf => 0%nat
  | PlusInf => len
  | Fin z => Nat.min (Z.to_nat z) len
  end.

(** ** Notions used in the statements about strings *)

Definition noLeadingSpace (s : string) : Prop :=
  match s with
  | EmptyString => True
  | String c _ => isWhiteSpace c = false
  end.

Definition totalLength (l : list string) : nat := sum_list (String.length <$> l).

End JS.

(* ================================================================== *)
(** * Regular expressions                                              *)
(* ================================================================== *)

(** The backtracking matcher of ECMAScript, in continuation-passing style
    as the language specification gives it, for patterns built from
    characters, classes, anchors, sequence, alternation, quantifiers and
    capturing groups (no flag but [g], no look-around, no back reference). *)
Module RegExp.
Import JS.

Local Open Scope nat_scope.

Inductive regex : Type :=
| Empty
| Char (c : ascii)
| Any                                            (* .      *)
| Class (negated : bool) (ranges : list (ascii * ascii))   (* [a-z] [^>] *)
| Bol                                            (* ^      *)
| Eol                                            (* $      *)
| Seq (r1 r2 : regex)
| Alt (r1 r2 : regex)
| Quant (min : nat) (max : option nat) (greedy : bool) (r : regex)
| Group (n : nat) (r : regex).                   (* the n-th left parenthesis *)

Definition Star (r : regex) : regex := Quant 0 None true r.
Definition Plus (r : regex) : regex := Quant 1 None true r.
Definition Opt (r : regex) : regex := Quant 0 (Some 1) true r.
Definition Times (n : nat) (r : regex) : regex := Quant n (Some n) true r.
Definition AtLeast (n : nat) (r : regex) : regex := Quant n None true r.

Fixpoint Lit (s : string) : regex :=
  match s with
  | EmptyString => Empty
  | String c EmptyString => Char c
  | String c s' => Seq (Char c) (Lit s')
  end.

(** [[abc]]: a class of single characters *)
Fixpoint chars (s : string) : list (ascii * ascii) :=
  match s with
  | EmptyString => []
  | String c s' => (c, c) :: chars s'
  end.

Record MatchState : Type := {
  endIndex : nat;
  caps : list (option (nat * nat))     (* group n at position n - 1 *)
}.

Definition Cont : Type := MatchState -> option MatchState.

Fixpoint ngroups (r : regex) : nat :=
  match r with
  | Seq r1 r2 | Alt r1 r2 => Nat.max (ngroups r1) (ngroups r2)
  | Quant _ _ _ r' => ngroups r'
  | Group n r' => Nat.max n (ngroups r')
  | _ => 0
  end.

Fixpoint groupsOf (r : regex) : list nat :=
  match r with
  | Seq r1 r2 | Alt r1 r2 => groupsOf r1 ++ groupsOf r2
  | Quant _ _ _ r' => groupsOf r'
  | Group n r' => n :: groupsOf r'
  | _ => []
  end.

Definition setCap (n : nat) (v : option (nat * nat)) (cs : list (option (nat * nat)))
  : list (option (nat * nat)) :=
  match n with
  | O => cs
  | S k => <[k := v]> cs
  end.

Definition clearCaps (gs : list nat) (cs : list (option (nat * nat)))
  : list (option (nat * nat)) :=
  foldr (fun n acc => setCap n None acc) cs gs.

Definition inRange (a : ascii) (rg : ascii * ascii) : bool :=
  (nat_of_ascii (fst rg) <=? nat_of_ascii a) && (nat_of_ascii a <=? nat_of_ascii (snd rg)).

Definition isLineTerminator (a : ascii) : bool :=
  bool_decide (nat_of_ascii a = 10 \/ nat_of_ascii a = 13).

(** Whether the pattern character matches [a]. *)
Definition charMatches (r : regex) (a : ascii) : bool :=
  match r with
  | Char c => bool_decide (a = c)
  | Any => negb (isLineTerminator a)
  | Class neg rs => xorb neg (existsb (inRange a) rs)
  | _ => false
  end.

(** RepeatMatcher of the language specification; [m] is the matcher of the
    quantified atom and [inner] the groups it contains.  An iteration that
    consumes nothing once [min] is reached fails, so every call either
    lowers [min] or moves the end index forward: [fuel] counts these. *)
Fixpoint repeatMatcher (fuel : nat) (m : MatchState -> Cont -> option MatchState)
    (inner : list nat) (min : nat) (max : option nat) (greedy : bool)
    (x : MatchState) (c : Cont) : option MatchState :=
  match fuel with
  | O => None
  | S fuel' =>
      if bool_decide (max = Some 0) then c x
      else
        let d : Cont := fun y =>
          if bool_decide (min = 0) && bool_decide (endIndex y = endIndex x) then None
          else repeatMatcher fuel' m inner (Nat.pred min) (Nat.pred <$> max) greedy y c in
        let xr := {| endIndex := endIndex x; caps := clearCaps inner (caps x) |} in
        if negb (bool_decide (min = 0)) then m xr d
        else if greedy then
          match m xr d with
          | Some z => Some z
          | None => c x
          end
        else
          match c x with
          | Some z => Some z
          | None => m xr d
          end
  end.

Fixpoint matcher (r : regex) (input : string) (x : MatchState) (c : Cont)
  : option MatchState :=
  match r with
  | Empty => c x
  | Char _ | Any | Class _ _ =>
      match String.get (endIndex x) input with
      | Some a => if charMatches r a
                  then c {| endIndex := S (endIndex x); caps := caps x |}
                  else None
      | None => None
      end
  | Bol => if bool_decide (endIndex x = 0) then c x else None
  | Eol => if bool_decide (endIndex x = String.length input) then c x else None
  | Seq r1 r2 => matcher r1 input x (fun y => matcher r2 input y c)
  | Alt r1 r2 =>
      match matcher r1 input x c with
      | Some z => Some z
      | None => matcher r2 input x c
      end
  | Quant min max greedy r' =>
      repeatMatcher (S (min + (String.length input - endIndex x)))
        (matcher r' input) (groupsOf r') min max greedy x c
  | Group n r' =>
      matcher r' input x (fun y =>
        c {| endIndex := endIndex y;
             caps := setCap n (Some (endIndex x, endIndex y)) (caps y) |})
  end.

(** A match as [exec] returns it: [m.index], [m[0]] and [m[1]], [m[2]], ... *)
Record MatchResult : Type := {
  index : nat;
  matched : string;
  captures : list (option string)
}.

(** [m[k]] *)
Definition get (m : MatchResult) (k : nat) : value :=
  match k with
  | O => VString (matched m)
  | S j => match captures m !! j with
           | Some (Some s) => VString s
           | _ => VUndefined
           end
  end.

Definition between (input : string) (se : nat * nat) : string :=
  String.substring (fst se) (snd se - fst se) input.

(** The match of [r] that starts at position [i], if there is one. *)
Definition matchAt (r : regex) (input : string) (i : nat) : option MatchResult :=
  match matcher r input {| endIndex := i; caps := replicate (ngroups r) None |} Some with
  | Some y => Some {| index := i;
                      matched := between input (i, endIndex y);
                      captures := map (option_map (between input)) (caps y) |}
  | None => None
  end.

(** The leftmost match at or after position [i]: [n] more positions to try. *)
Fixpoint searchFrom (n : nat) (r : regex) (input : string) (i : nat) : option MatchResult :=
  match matchAt r input i with
  | Some m => Some m
  | None => match n with
            | O => None
            | S n' => searchFrom n' r input (S i)
            end
  end.

(** [re.exec(input)] with [re.lastIndex = lastIndex] *)
Definition execFrom (r : regex) (input : string) (lastIndex : nat) : option MatchResult :=
  if String.length input <? lastIndex then None
  else searchFrom (String.length input - lastIndex) r input lastIndex.

(** [re.exec(input)] on a fresh or non-global expression; [input.match(re)]
    without the [g] flag. *)
Definition exec (r : regex) (input : string) : option MatchResult :=
  execFrom r input 0.

(** ** Notions used in the statements about the matcher *)

Section Invariant.

Variable input : string.
Variable start : nat.      (* where the match begins *)
Variable n : nat.          (* the number of groups *)

(** A capture lies between the start of the match and the end index. *)
Definition capOk (e : nat) (oc : option (nat * nat)) : Prop :=
  match oc with
  | Some (s, e') => start <= s /\ s <= e' /\ e' <= e
  | None => True
  end.

Definition wf (x : MatchState) : Prop :=
  start <= endIndex x /\ endIndex x <= String.length input /\
  length (caps x) = n /\ Forall (capOk (endIndex x)) (caps x).

(** A matcher that succeeds has called its continuation, further in the
    input and on a well-formed state. *)
Definition sound (m : MatchState -> Cont -> option MatchState) : Prop :=
  forall x c z, wf x -> m x c = Some z ->
    exists y, wf y /\ endIndex x <= endIndex y /\ c y = Some z.

(** A matcher reads its continuation only at states that lie further in
    the input. *)
Definition local (m : MatchState -> Cont -> option MatchState) : Prop :=
  forall x (c c' : Cont), endIndex x <= String.length input ->
    (forall y, endIndex x <= endIndex y -> endIndex y <= String.length input -> c y = c' y) ->
    m x c = m x c'.

End Invariant.

(** ** The declarative reading of a pattern *)

(** The text between two positions of [input] that a pattern describes:
    the declarative reading of a pattern, captures left aside. *)
Inductive spans (input : string) : regex -> nat -> nat -> Prop :=
| spans_empty s : spans input Empty s s
| spans_char r a s :
    String.get s input = Some a -> charMatches r a = true -> spans input r s (S s)
| spans_bol : spans input Bol 0 0
| spans_eol : spans input Eol (String.length input) (String.length input)
| spans_seq r1 r2 s m e :
    spans input r1 s m -> spans input r2 m e -> spans input (Seq r1 r2) s e
| spans_alt_l r1 r2 s e : spans input r1 s e -> spans input (Alt r1 r2) s e
| spans_alt_r r1 r2 s e : spans input r2 s e -> spans input (Alt r1 r2) s e
| spans_quant_done min max greedy r s :
    min = 0 \/ max = Some 0 -> spans input (Quant min max greedy r) s s
| spans_quant_more min max greedy r s m e :
    spans input r s m ->
    spans input (Quant (Nat.pred min) (Nat.pred <$> max) greedy r) m e ->
    spans input (Quant min max greedy r) s e
| spans_group n r s e : spans input r s e -> spans input (Group n r) s e.

(** The groups of a pattern, each with its body. *)
Fixpoint groupBodies (r : regex) : list (nat * regex) :=
  match r with
  | Seq r1 r2 | Alt r1 r2 => groupBodies r1 ++ groupBodies r2
  | Quant _ _ _ r' => groupBodies r'
  | Group n r' => (n, r') :: groupBodies r'
  | _ => []
  end.

(** Every capture spans a text that the body of its group describes. *)
Definition capsSpan (input : string) (whole : regex) (cs : list (option (nat * nat))) : Prop :=
  forall j s e, cs !! j = Some (Some (s, e)) ->
    exists body, (S j, body) ∈ groupBodies whole /\ spans input body s e.

Definition faithful (input : string) (whole r : regex)
    (m : MatchState -> Cont -> option MatchState) : Prop :=
  forall x c z, capsSpan input whole (caps x) -> m x c = Some z ->
    exists y, capsSpan input whole (caps y)
              /\ spans input r (endIndex x) (endIndex y) /\ c y = Some z.

(** ** The groups that a pattern sets *)

(** The groups that have a capture whenever the pattern has matched. *)
Fixpoint setGroups (r : regex) : list nat :=
  match r with
  | Seq r1 r2 => setGroups r1 ++ setGroups r2
  | Quant (S _) None _ r' => setGroups r'
  | Group n r' => n :: setGroups r'
  | _ => []
  end.

(** Group [S j] is kept at position [j]. *)
Definition isSet (cs : list (option (nat * nat))) (j : nat) : Prop :=
  exists se, cs !! j = Some (Some se).

Definition fits (r : regex) (cs : list (option (nat * nat))) : Prop :=
  forall j, S j ∈ groupsOf r -> j < length cs.

(** From [x] to [y] a matcher of [r] has left the other groups as they
    were and has set the groups of [setGroups r]. *)
Definition stepOk (r : regex) (x y : MatchState) : Prop :=
  length (caps y) = length (caps x)
  /\ (forall j, S j ∉ groupsOf r -> caps y !! j = caps x !! j)
  /\ (forall j, S j ∈ setGroups r -> isSet (caps y) j).

Definition setting (r : regex) (m : MatchState -> Cont -> option MatchState) : Prop :=
  forall x c z, fits r (caps x) -> m x c = Some z ->
    exists y, stepOk r x y /\ c y = Some z.

(** A quantifier over [r]: the captures outside [r] stay, and the groups
    that [r] sets are set once an iteration has run. *)
Definition repeatOk (r : regex) (min : nat) (max : option nat) (x y : MatchState) : Prop :=
  length (caps y) = length (caps x)
  /\ (forall j, S j ∉ groupsOf r -> caps y !! j = caps x !! j)
  /\ (((1 <= min /\ max = None) \/ (forall j, S j ∈ setGroups r -> isSet (caps x) j)) ->
      forall j, S j ∈ setGroups r -> isSet (caps y) j).

(** What a match found at or after position [from] is made of. *)
Record matchOk (r : regex) (input : string) (from : nat) (m : MatchResult) : Prop := {
  ok_index : from <= index m;
  ok_end : index m + String.length (matched m) <= String.length input;
  ok_matched : matched m = String.substring (index m) (String.length (matched m)) input;
  ok_groups : length (captures m) = ngroups r;
  ok_within : forall k g, captures m !! k = Some (Some g) ->
                exists off, String.substring off (String.length g) (matched m) = g
}.

End RegExp.

(* ================================================================== *)
(** * String and array methods that take a regular expression         *)
(* ================================================================== *)

Module Methods.
Import JS RegExp.

Local Open Scope nat_scope.

(** A regular-expression object: its pattern and its [g] flag. *)
Record RegExpObject : Type := {
  source : regex;
  global : bool
}.

(** [s.replace(pat, rep)] for a string pattern: the first occurrence only. *)
Definition replaceString (s pat rep : string) : string :=
  match String.index 0 pat s with
  | Some n => String.substring 0 n s +:+ rep +:+ substringFrom s (n + String.length pat)
  | None => s
  end.

(** The loop of [s.replace(re, f)]: every match at or after [lastIndex]
    when [re] is global, the first one otherwise; [next] is the position up
    to which [s] has been copied into [acc].  An empty match moves
    [lastIndex] one step further, so that [fuel] bounds the matches by the
    positions of [s]. *)
Fixpoint replaceLoop (fuel : nat) (re : RegExpObject) (s : string)
    (f : MatchResult -> Completion string)
    (lastIndex next : nat) (acc : string) : Completion string :=
  match execFrom (source re) s lastIndex with
  | None => Normal (acc +:+ substringFrom s next)
  | Some m =>
      bind (f m) (fun rep =>
        let e := index m + String.length (matched m) in
        let acc' := acc +:+ String.substring next (index m - next) s +:+ rep in
        if global re then
          match fuel with
          | O => Normal (acc' +:+ substringFrom s e)
          | S fuel' =>
              replaceLoop fuel' re s f
                (if bool_decide (matched m = EmptyString) then S e else e) e acc'
          end
        else Normal (acc' +:+ substringFrom s e))
  end.

(** [s.replace(re, f)] for a replacer function [f], which receives the
    match (and reads the whole string [s] where the source does). *)
Definition replace (re : RegExpObject) (s : string)
    (f : MatchResult -> Completion string) : Completion string :=
  replaceLoop (String.length s) re s f 0 0 EmptyString.

(** [lines[k]] when it is a string: [k] is an integer Number in range or
    the canonical decimal string of one.  For any other key the property
    is not a string ([undefined], the length, a method of the prototype). *)
Definition isCanonicalIndex (s : string) : option nat :=
  match s with
  | EmptyString => None
  | String c s' =>
      if bool_decide (str1 c = "0") && negb (bool_decide (s' = EmptyString)) then None
      else match spanDigits 10 s 0 0 with
           | (v, _, EmptyString) => Some (Z.to_nat v)
           | _ => None
           end
  end.

Definition elementAt (lines : list string) (k : value) : option string :=
  match k with
  | VUndefined => None
  | VNumber (Real z false) => if (z <? 0)%Z then None else lines !! Z.to_nat z
  | VNumber _ => None
  | VString s => match isCanonicalIndex s with
                 | Some n => lines !! n
                 | None => None
                 end
  end.

(** [k + 1] *)
Definition plus1 (k : value) : value :=
  match k with
  | VUndefined => VNumber NaN
  | VNumber (Real z fr) => VNumber (Real (z + 1) fr)
  | VNumber n => VNumber n
  | VString s => VString (s +:+ "1")
  end.

(** An array that may have holes, as [new Array(n)] creates one. *)
Definition newArray (n : nat) : list (option string) := replicate n None.

(** [arr[i] = v]: writing past the end extends the array. *)
Definition arraySet (arr : list (option string)) (i : nat) (v : string)
  : list (option string) :=
  if i <? length arr then <[i := Some v]> arr
  else arr ++ replicate (i - length arr) None ++ [Some v].

(** [arr.join("")]: a hole contributes nothing. *)
Definition joinMarkers (arr : list (option string)) : string :=
  foldr (fun o acc => default EmptyString o +:+ acc) EmptyString arr.

End Methods.

(* ================================================================== *)
(** * The pattern library, the constants and the utilities             *)
(* ================================================================== *)

Module Talon.
Import JS RegExp Methods.

(** What [Quotations.ts] imports from [./Regexp], [./Constants] and
    [./Utils], none of which is under src/: the patterns, the two bounds,
    the default content type and the line utilities are parameters of the
    development.  [Quotation], [EmptyQuotation] and the patterns given to
    [match] or [matchStart] carry no [g] flag (the source reads the index
    and the groups of their match); [splitLines_length] is the [length]
    property of the function [splitLines], which the source reads. *)
Record Library : Type := {
  QuotePattern : regex;
  Forward : regex;
  SplitterPatterns : list regex;
  Link : RegExpObject;
  OnDateSomebodyWrote : RegExpObject;
  NormalizedLink : RegExpObject;
  ParenthesisLink : regex;
  Quotation : regex;
  EmptyQuotation : regex;
  MaxLinesCount : Z;
  SplitterMaxLines : Z;
  ContentTypeTextPlain : string;
  findDelimiter : string -> string;
  splitLines : string -> list string;
  splitLines_length : nat
}.

(** Modelled from the spec: [matchStart] of [./Utils] is not under src/.
    The spec has the classifier test whether a line's prefix matches a
    pattern, and the detector whether the marker sequence starts with the
    leading-forward shape: the match of the pattern when it begins at the
    first character, nothing otherwise. *)
Definition matchStart (str : string) (re : regex) : option MatchResult :=
  match exec re str with
  | Some m => if bool_decide (index m = 0%nat) then Some m else None
  | None => None
  end.

(* ================================================================== *)
(** * Quotations.ts                                                    *)
(* ================================================================== *)

Section Quotations.

Variable lib : Library.

(** ** The patterns written in the source *)

(** The literal [/ ( m e* ) {3} /] (written here with blanks between its tokens) *)
Definition reThreeQuoteRuns : regex :=
  Times 3 (Group 1 (Seq (Char "m") (Star (Char "e")))).

(** The literal [/ [te]* f /] *)
Definition reLeadingForward : regex :=
  Seq (Star (Class false (chars "te"))) (Char "f").

(** The literal [/ (m) e* ( (?: t+ e* )+ ) m /g] *)
Definition reInlineReply : regex :=
  Seq (Group 1 (Char "m"))
   (Seq (Star (Char "e"))
    (Seq (Group 2 (Plus (Seq (Plus (Char "t")) (Star (Char "e")))))
         (Char "m"))).

(** The pattern string [( s e* )+ ( (t|f)+ e* )+] given to [match] *)
Definition reTrailingQuote : regex :=
  Seq (Plus (Group 1 (Seq (Char "s") (Star (Char "e")))))
      (Plus (Group 2 (Seq (Plus (Group 3 (Alt (Char "t") (Char "f"))))
                          (Star (Char "e"))))).

(** ** isSplitter *)

(** The first of the splitter patterns that matches at the start of [src];
    [undefined] when the loop ends without one. *)
Fixpoint firstSplitter (patterns : list regex) (src : string) : option MatchResult :=
  match patterns with
  | [] => None
  | pattern :: rest =>
      match matchStart src pattern with
      | Some m => Some m
      | None => firstSplitter rest src
      end
  end.

Definition isSplitter (src : string) : option MatchResult :=
  firstSplitter (SplitterPatterns lib) src.

(** ** preprocess *)

(** The replacer of the link pattern.  Its parameters
    [(match, link, offset, str)] are bound by position to
    [match, p1, ..., pn, offset, string]: they are what their names say
    when the pattern has one group.  With no group [str] is [undefined],
    with two it is the numeric offset, and [str.substring] throws; with
    three or more [offset] is the second capture and [str] the third. *)
Definition linkReplacer (body : string) (m : MatchResult) : Completion string :=
  let args : string * option string * value * value :=
    match captures m with
    | [] => (matched m, None, VString body, VUndefined)
    | [p1] => (matched m, p1, VNumber (Int (Z.of_nat (index m))), VString body)
    | [p1; p2] => (matched m, p1, from_option VString VUndefined p2,
                   VNumber (Int (Z.of_nat (index m))))
    | p1 :: p2 :: p3 :: _ => (matched m, p1, from_option VString VUndefined p2,
                              from_option VString VUndefined p3)
    end in
  let '(match_, link, offset, str) := args in
  match str with
  | VString str =>
      let start := clampIndex (String.length str) (ToIntegerOrInfinity offset) in
      let newLineIndex := indexOf (substringFrom str start) LF in
      if bool_decide (charAt str (newLineIndex + 1) = VString ">")
      then Normal match_
      else Normal ("@@" +:+ default "undefined" link +:+ "@@")
  | _ => Throw TypeError
  end.

(** The replacer of the "On ... wrote:" pattern: [offset] is the first of
    [p1, ..., pn, offset, string] that [isFinite] accepts (a capture that
    reads as a number comes before the real offset), [str] the last. *)
Definition splitterReplacer (delimiter body : string) (m : MatchResult)
  : Completion string :=
  let args := (from_option VString VUndefined <$> captures m)
                ++ [VNumber (Int (Z.of_nat (index m))); VString body] in
  let offset := default VUndefined (head (filter (fun a => isFinite a = true) args)) in
  let str := body in
  if gt0 (ToNumber offset)
     && negb (bool_decide (charAtNumber str (sub1 (ToNumber offset)) = VString LF))
  then Normal (delimiter +:+ matched m)
  else Normal (matched m).

Definition preprocess (messageBody delimiter : string) (contentType : option string)
  : Completion string :=
  let contentType := default (ContentTypeTextPlain lib) contentType in
  bind (replace (Link lib) messageBody (linkReplacer messageBody))
    (fun messageBody =>
       if negb (bool_decide (contentType = ContentTypeTextPlain lib))
       then Normal messageBody
       else replace (OnDateSomebodyWrote lib) messageBody
              (splitterReplacer delimiter messageBody)).

(** ** markMessageLines *)

Definition numberValue (z : Z) : value := VNumber (Int z).

(** [for (splitterIndex = 0; splitterIndex < n; splitterIndex++)
      markers[index + splitterIndex] = "s"] *)
Fixpoint markSplitter (n : nat) (index : nat) (markers : list (option string))
  : list (option string) :=
  match n with
  | O => markers
  | S n' => arraySet (markSplitter n' index markers) (index + n') "s"
  end.

(** One turn of the [while] loop: the markers written and the next value
    of [index]. *)
Definition markStep (lines : list string) (index : Z) (markers : list (option string))
  : list (option string) * Z :=
  let i := Z.to_nat index in
  let line := default EmptyString (lines !! i) in
  if bool_decide (line = EmptyString) then
    (arraySet markers i "e", index + 1)
  else if bool_decide (is_Some (matchStart line (QuotePattern lib))) then
    (arraySet markers i "m", index + 1)
  else if bool_decide (is_Some (matchStart line (Forward lib))) then
    (arraySet markers i "f", index + 1)
  else
    match isSplitter (join LF (slice lines (numberValue index)
                                 (numberValue (index + SplitterMaxLines lib)))) with
    | None => (arraySet markers i "t", index + 1)
    | Some splitterMatch =>
        let splitterLines := splitLines lib (matched splitterMatch) in
        let markers := markSplitter (length splitterLines) i markers in
        (* index += splitLines.length - 1; *)
        let index := index + (Z.of_nat (splitLines_length lib) - 1) in
        (markers, index + 1)
    end.

(** The [while] loop.  A turn moves [index] forward except when
    [splitLines.length] is 0 and a splitter is found: the turn then leaves
    the state as it was and the loop never ends. *)
Fixpoint markLoop (fuel : nat) (lines : list string) (index : Z)
    (markers : list (option string)) : Completion (list (option string)) :=
  if negb (index <? Z.of_nat (length lines)) then Normal markers
  else match fuel with
       | O => Diverge
       | S fuel' =>
           let '(markers', index') := markStep lines index markers in
           markLoop fuel' lines index' markers'
       end.

Definition markMessageLines (lines : list string) : Completion string :=
  bind (markLoop (length lines) lines 0 (newArray (length lines)))
       (fun markers => Normal (joinMarkers markers)).

(** ** processMarkedLines *)

Record QuotationResult : Type := {
  lastMessageLines : list string;
  wereLinesDeleted : bool;
  firstDeletedLine : value;
  lastDeletedLine : value
}.

(** [markers.replace("m", "t")], evaluated when there is no splitter and no
    three quote runs in a row; the source drops its value. *)
Definition normalizedMarkers (markers : string) : string :=
  if (indexOf markers "s" <? 0) && negb (bool_decide (is_Some (exec reThreeQuoteRuns markers)))
  then replaceString markers "m" "t"
  else markers.

(** The [while] loop of the inline-reply guard.  The pattern literal is
    evaluated anew at every test, so every test finds the first occurrence
    again: a turn that neither returns nor throws is followed by the same
    turn, for ever. *)
Definition inlineReplyGuard (lines : list string) (markers : string)
    (result : QuotationResult) (rest : Completion QuotationResult)
  : Completion QuotationResult :=
  match exec reInlineReply markers with
  | None => rest
  | Some inlineReplyMatch =>
      let k := get inlineReplyMatch 3 in
      match elementAt lines k with
      | None => Throw TypeError                  (* lines[k].match *)
      | Some line =>
          if bool_decide (is_Some (exec (ParenthesisLink lib) line)) then Diverge
          else match elementAt lines (plus1 k) with
               | None => Throw TypeError         (* lines[k + 1].trim *)
               | Some next =>
                   if bool_decide (is_Some (matchStart (trim next) (ParenthesisLink lib)))
                   then Diverge
                   else Normal result
               end
      end
  end.

Definition processMarkedLines (lines : list string) (markers : string)
  : Completion QuotationResult :=
  let result := {| lastMessageLines := lines;
                   wereLinesDeleted := false;
                   firstDeletedLine := numberValue (-1);
                   lastDeletedLine := numberValue (-1) |} in
  (* If there are no splitters, there should be no markers. *)
  let _ := normalizedMarkers markers in
  if bool_decide (is_Some (matchStart markers reLeadingForward)) then Normal result
  else
  (* Inlined reply. *)
  inlineReplyGuard lines markers result
  (* Cut out text lines coming after the splitter if there are no markers there. *)
  match exec reTrailingQuote markers with
  | Some quotation =>
      Normal {| wereLinesDeleted := true;
                firstDeletedLine := get quotation 3;
                lastDeletedLine := numberValue (Z.of_nat (length lines));
                lastMessageLines := slice lines (numberValue 0) (get quotation 3) |}
  | None =>
      (* Handle the case with markers. *)
      match (match exec (Quotation lib) markers with
             | Some q => Some q
             | None => exec (EmptyQuotation lib) markers
             end) with
      | Some quotation =>
          match get quotation 1 with
          | VString group1 =>
              let firstGroupStart :=
                Z.of_nat (index quotation) + indexOf (matched quotation) group1 in
              let firstGroupEnd := firstGroupStart + Z.of_nat (String.length group1) in
              Normal {| wereLinesDeleted := true;
                        firstDeletedLine := numberValue firstGroupStart;
                        lastDeletedLine := numberValue firstGroupEnd;
                        lastMessageLines :=
                          slice lines (numberValue 0) (numberValue firstGroupStart)
                            ++ slice lines (numberValue firstGroupEnd) VUndefined |}
          | _ => Throw TypeError                 (* quotation[1].length *)
          end
      | None => Normal result
      end
  end.

(** ** postProcess *)

(** The replacement ["<$1>"]: [$1] is the first capture (nothing when the
    group did not take part), and stays as written when the pattern has no
    group. *)
Definition bracketed (m : MatchResult) : Completion string :=
  Normal ("<" +:+ match captures m with
                  | [] => "$1"
                  | p1 :: _ => default EmptyString p1
                  end +:+ ">").

Definition postProcess (messageBody : string) : Completion string :=
  bind (replace (NormalizedLink lib) messageBody bracketed)
       (fun s => Normal (trim s)).

(** ** The module interface *)

Definition extractFromHtml (messageBody : string) : Completion string :=
  Normal messageBody.

Definition extractFromPlain (messageBody : string) : Completion string :=
  let delimiter := findDelimiter lib messageBody in
  bind (preprocess messageBody delimiter None) (fun messageBody =>
  let lines := slice (splitLines lib messageBody)
                 (numberValue 0) (numberValue (MaxLinesCount lib)) in
  bind (markMessageLines lines) (fun markers =>
  bind (processMarkedLines lines markers) (fun r =>
  let messageBody := join delimiter (lastMessageLines r) in
  postProcess messageBody))).

(** [contentType] is [None] when the argument is left out. *)
Definition extractFrom (messageBody : string) (contentType : option string)
  : Completion string :=
  let contentType := default (ContentTypeTextPlain lib) contentType in
  if bool_decide (contentType = "text/plain") then extractFromPlain messageBody
  else if bool_decide (contentType = "text/html") then extractFromHtml messageBody
  else Normal messageBody.

End Quotations.

(** ** The three records that the detector returns *)

Definition untouched (lines : list string) : QuotationResult :=
  {| lastMessageLines := lines;
     wereLinesDeleted := false;
     firstDeletedLine := numberValue (-1);
     lastDeletedLine := numberValue (-1) |}.

Definition trailingCut (lines : list string) (quotation : MatchResult) : QuotationResult :=
  {| wereLinesDeleted := true;
     firstDeletedLine := get quotation 3;
     lastDeletedLine := numberValue (Z.of_nat (length lines));
     lastMessageLines := slice lines (numberValue 0) (get quotation 3) |}.

Definition boundedBlock (lines : list string) (quotation : MatchResult) (group1 : string)
  : QuotationResult :=
  let firstGroupStart :=
    Z.of_nat (index quotation) + indexOf (matched quotation) group1 in
  let firstGroupEnd := firstGroupStart + Z.of_nat (String.length group1) in
  {| wereLinesDeleted := true;
     firstDeletedLine := numberValue firstGroupStart;
     lastDeletedLine := numberValue firstGroupEnd;
     lastMessageLines :=
       slice lines (numberValue 0) (numberValue firstGroupStart)
         ++ slice lines (numberValue firstGroupEnd) VUndefined |}.

End Talon.

(* ================================================================== *)
(** * A pattern library to run the code on                             *)
(* ================================================================== *)

Module Sample.
Import JS RegExp Methods Talon.

(** Modelled from the spec: [QuotePattern] of [./Regexp] is not under
    src/.  The spec's glossary: a quote-prefixed line begins with a
    conventional reply-quoting marker, a leading angle bracket. *)
Definition QuotePattern : regex := Plus (Char ">").

(** Modelled from the spec: [Forward] of [./Regexp] is not under src/; a
    forwarded-message header line, dashes around the words. *)
Definition Forward : regex :=
  Seq (Plus (Char "-")) (Seq (Star (Char " ")) (Seq (Lit "Forwarded message")
    (Seq (Star (Char " ")) (Plus (Char "-"))))).

(** Modelled from the spec: [OnDateSomebodyWrote] of [./Regexp] is not
    under src/; the attribution the spec writes
    "On <date>, <person> wrote:", which may run over several lines. *)
Definition OnDateSomebodyWrote : regex :=
  Seq (Lit "On ") (Seq (Star (Class true (chars ":"))) (Lit "wrote:")).

(** Modelled from the spec: the second splitter template the spec names,
    the "-----Original Message-----" separator. *)
Definition OriginalMessage : regex :=
  Seq (Plus (Char "-")) (Seq (Star (Char " ")) (Seq (Lit "Original Message")
    (Seq (Star (Char " ")) (Plus (Char "-"))))).

(** Modelled from the spec: [Link] of [./Regexp] is not under src/; a
    bracket-delimited link, whose target is the group. *)
Definition Link : regex :=
  Seq (Char "<") (Seq (Group 1 (Seq (Lit "http://") (Star (Class true (chars ">")))))
                      (Char ">")).

(** Modelled from the spec: [NormalizedLink] of [./Regexp] is not under
    src/; the sentinel-wrapped link that the preprocessor leaves. *)
Definition NormalizedLink : regex :=
  Seq (Lit "@@") (Seq (Group 1 (Seq (Lit "http://") (Star (Class true (chars ">@")))))
                      (Lit "@@")).

(** Modelled from the spec: [ParenthesisLink] of [./Regexp] is not under
    src/; the link-shaped text of the inline-reply guard. *)
Definition ParenthesisLink : regex :=
  Seq (Lit "(http") (Seq (Opt (Char "s")) (Lit "://")).

(** Modelled from the spec: [Quotation] of [./Regexp] is not under src/.
    The spec has it capture the quoted block as its group: here a block
    that a splitter or two or more quote runs open, up to the last quote
    run, with only text and empty lines after it. *)
Definition Quotation : regex :=
  Seq (Group 1
         (Seq (Alt (Char "s") (AtLeast 2 (Seq (Char "m") (Star (Char "e")))))
              (Seq (Star Any) (Seq (Char "m") (Star (Char "e"))))))
      (Seq (Star (Class false (chars "te"))) Eol).

(** Modelled from the spec: [EmptyQuotation] of [./Regexp] is not under
    src/; the variant whose block is the opening alone. *)
Definition EmptyQuotation : regex :=
  Seq (Group 1 (Alt (Char "s") (AtLeast 2 (Seq (Char "m") (Star (Char "e"))))))
      (Star (Char "e")).

(** Modelled from the spec: [splitLines] of [./Utils] is not under src/;
    the line split, at LF or CR LF. *)
Fixpoint splitLines (s : string) : list string :=
  match s with
  | EmptyString => [EmptyString]
  | String "010" s' => EmptyString :: splitLines s'
  | String "013" (String "010" s') => EmptyString :: splitLines s'
  | String c s' =>
      match splitLines s' with
      | h :: t => String c h :: t
      | [] => [str1 c]
      end
  end.

(** Modelled from the spec: [findDelimiter] of [./Utils] is not under
    src/; the delimiter detection (CR LF or LF), LF when the body has
    neither. *)
Fixpoint findDelimiter (s : string) : string :=
  match s with
  | EmptyString => LF
  | String "010" _ => LF
  | String "013" (String "010" _) => CR +:+ LF
  | String _ s' => findDelimiter s'
  end.

(** Modelled from the spec: the library that [Quotations.ts] imports is not
    under src/.  The bounds are a thousand lines and a span of four lines;
    [splitLines] is declared with the one parameter its two calls give it. *)
Definition library : Library := {|
  Talon.QuotePattern := QuotePattern;
  Talon.Forward := Forward;
  Talon.SplitterPatterns := [OnDateSomebodyWrote; OriginalMessage];
  Talon.Link := {| source := Link; global := true |};
  Talon.OnDateSomebodyWrote := {| source := OnDateSomebodyWrote; global := true |};
  Talon.NormalizedLink := {| source := NormalizedLink; global := true |};
  Talon.ParenthesisLink := ParenthesisLink;
  Talon.Quotation := Quotation;
  Talon.EmptyQuotation := EmptyQuotation;
  Talon.MaxLinesCount := 1000;
  Talon.SplitterMaxLines := 4;
  Talon.ContentTypeTextPlain := "text/plain";
  Talon.findDelimiter := findDelimiter;
  Talon.splitLines := splitLines;
  Talon.splitLines_length := 1
|}.

End Sample.


(* ================================================================== *)
(** * Notions for the statements about the classifier and the detector *)
(* ================================================================== *)

Module Notions.
Import JS RegExp Methods Talon.
Local Open Scope Z_scope.

(** ** Notions used in the statements about the classifier and the detector *)

(** The marker of a line that is not part of a splitter: the first three
    tests of the classifier, and "t" when they fail. *)
Definition lineMarker (lib : Library) (line : string) : string :=
  if bool_decide (line = EmptyString) then "e"
  else if bool_decide (is_Some (matchStart line (QuotePattern lib))) then "m"
  else if bool_decide (is_Some (matchStart line (Forward lib))) then "f"
  else "t".

(** The text in which the classifier looks for a splitter at [index]. *)
Definition splitterWindow (lib : Library) (lines : list string) (index : Z) : string :=
  join LF (slice lines (numberValue index) (numberValue (index + SplitterMaxLines lib))).

(** The splitter that the classifier finds at line [i]: the line has passed
    the first three tests and a template matches its window. *)
Definition splitterAt (lib : Library) (lines : list string) (i : nat) : option MatchResult :=
  match lines !! i with
  | Some line =>
      if bool_decide (lineMarker lib line = "t")
      then isSplitter lib (splitterWindow lib lines (Z.of_nat i))
      else None
  | None => None
  end.

(** The marker that a line ends with when every line has its turn: "s"
    where a splitter is found, the marker of the line elsewhere. *)
Definition classified (lib : Library) (lines : list string) : list string :=
  imap (fun i line => match splitterAt lib lines i with
                      | Some _ => "s"
                      | None => lineMarker lib line
                      end) lines.

(** The five markers. *)
Definition markerAlphabet : list ascii := ["e"; "m"; "f"; "s"; "t"]%char.

(** An entry of the marker array: a hole or one of the five markers. *)
Definition markerEntry (o : option string) : Prop :=
  forall v, o = Some v -> exists c, c ∈ markerAlphabet /\ v = str1 c.

(** What the detector decides, the surviving lines left aside. *)
Definition decision (r : QuotationResult) : bool * value * value :=
  (wereLinesDeleted r, firstDeletedLine r, lastDeletedLine r).

(** A pattern whose first group has a text in every match: its groups are
    numbered apart and group 1 is on every path. *)
Definition groupOneSet (r : regex) : Prop :=
  NoDup (groupsOf r) /\ 1%nat ∈ setGroups r.

(** A library with which the pipeline can only fail in the detector: the
    link pattern has its one group, [splitLines] is declared with a
    parameter, and group 1 of the two quotation patterns is always set. *)
Definition wellFormed (lib : Library) : Prop :=
  ngroups (source (Link lib)) = 1%nat
  /\ (1 <= splitLines_length lib)%nat
  /\ groupOneSet (Quotation lib)
  /\ groupOneSet (EmptyQuotation lib).

(** The inline-reply shape is in the markers and no forward leads them. *)
Definition inlineReplyReached (markers : string) : Prop :=
  matchStart markers reLeadingForward = None /\ is_Some (exec reInlineReply markers).

(** What the detector reports apart from the lines it keeps, when it
    returns. *)
Definition verdict (c : Completion QuotationResult) : Completion (bool * value * value) :=
  bind c (fun r => Normal (decision r)).

(** A forwarded header leads the markers: an "f" after text and empty
    markers only. *)
Definition forwardLeads (markers : string) : Prop :=
  exists j, (forall k, (k < j)%nat -> String.get k markers = Some "t"%char
                                 \/ String.get k markers = Some "e"%char)
            /\ String.get j markers = Some "f"%char.

(** The restored form of a normalized link is no longer than the
    normalized link. *)
Definition restorationShortens (lib : Library) : Prop :=
  forall s from m rep,
    execFrom (source (NormalizedLink lib)) s from = Some m ->
    bracketed m = Normal rep ->
    (String.length rep <= String.length (matched m))%nat.

(** Markers without a splitter and without a quote marker. *)
Definition unmarked (markers : string) : Prop :=
  forall i, String.get i markers <> Some "s"%char /\ String.get i markers <> Some "m"%char.

(** The two quotation patterns of the library match only markers that hold
    a splitter or a quote marker. *)
Definition quotationNeedsMarker (lib : Library) : Prop :=
  forall markers, unmarked markers ->
    exec (Quotation lib) markers = None /\ exec (EmptyQuotation lib) markers = None.

End Notions.

(* ================================================================== *)
(** * Facts about strings and arrays                                 *)
(* ================================================================== *)

Module JSFacts.
Import JS.
Local Open Scope nat_scope.


Lemma bind_Normal {A B} (c : Completion A) (k : A -> Completion B) b :
  bind c k = Normal b -> exists a, c = Normal a /\ k a = Normal b.
Proof. destruct c; simpl; intros H; try discriminate. eauto. Qed.

Lemma length_append (s t : string) :
  String.length (s +:+ t) = String.length s + String.length t.
Proof. induction s as [|c s IH]; simpl; [reflexivity|]. by rewrite IH. Qed.

(** *** trim *)

Lemma trimStart_length s : String.length (trimStart s) <= String.length s.
Proof. induction s as [|c s IH]; simpl; [lia|]. destruct (isWhiteSpace c); simpl; lia. Qed.

Lemma trimEnd_length s : String.length (trimEnd s) <= String.length s.
Proof.
  induction s as [|c s IH]; simpl; [lia|].
  destruct (trimEnd s); [destruct (isWhiteSpace c)|]; simpl in *; lia.
Qed.

Lemma trim_length s : String.length (trim s) <= String.length s.
Proof. unfold trim. pose proof (trimEnd_length (trimStart s)). pose proof (trimStart_length s). lia. Qed.

Lemma trimStart_noLeadingSpace s : noLeadingSpace (trimStart s).
Proof. induction s as [|c s IH]; simpl; [exact I|]. destruct (isWhiteSpace c) eqn:E; simpl; auto. Qed.

Lemma trimStart_id s : noLeadingSpace s -> trimStart s = s.
Proof. destruct s as [|c s]; simpl; [reflexivity|]. by intros ->. Qed.

Lemma trimEnd_noLeadingSpace s : noLeadingSpace s -> noLeadingSpace (trimEnd s).
Proof.
  destruct s as [|c s]; simpl; [auto|]. intros H.
  destruct (trimEnd s); [rewrite H|]; simpl; assumption.
Qed.

Lemma trimEnd_idem s : trimEnd (trimEnd s) = trimEnd s.
Proof.
  induction s as [|c s IH]; simpl; [reflexivity|].
  destruct (trimEnd s) as [|d t] eqn:E.
  - destruct (isWhiteSpace c) eqn:Ec; simpl; [reflexivity|]. by rewrite Ec.
  - change (trimEnd (String c (String d t))) with
      (match trimEnd (String d t) with
       | EmptyString => if isWhiteSpace c then EmptyString else str1 c
       | u => String c u
       end).
    by rewrite IH.
Qed.

Lemma trim_idem s : trim (trim s) = trim s.
Proof.
  unfold trim.
  rewrite (trimStart_id (trimEnd (trimStart s))).
  - apply trimEnd_idem.
  - apply trimEnd_noLeadingSpace, trimStart_noLeadingSpace.
Qed.

(** *** join *)

Lemma join_length sep l :
  String.length (join sep l) = totalLength l + String.length sep * (length l - 1).
Proof.
  unfold join, totalLength.
  induction l as [|x l IH]; [simpl; lia|].
  destruct l as [|y l]; [simpl; lia|].
  change (String.concat sep (x :: y :: l)) with (x +:+ sep +:+ String.concat sep (y :: l)).
  rewrite !length_append, IH. simpl. rewrite !Nat.sub_0_r.
  nia.
Qed.

Lemma totalLength_sublist l1 l2 : l1 `sublist_of` l2 -> totalLength l1 <= totalLength l2.
Proof.
  unfold totalLength. induction 1 as [|x l1 l2 _ IH|x l1 l2 _ IH]; [done| |];
    rewrite ?fmap_cons; simpl; lia.
Qed.

Lemma join_length_sublist sep l1 l2 :
  l1 `sublist_of` l2 -> String.length (join sep l1) <= String.length (join sep l2).
Proof.
  intros H. rewrite !join_length.
  pose proof (totalLength_sublist _ _ H). pose proof (sublist_length _ _ H). nia.
Qed.

(** *** slice *)

Lemma relIndex_le len k : relIndex len k <= len.
Proof. destruct k as [|z|]; simpl; try lia. destruct (z <? 0)%Z eqn:E; lia. Qed.

Lemma ToIntegerOrInfinity_Int z : ToIntegerOrInfinity (VNumber (Int z)) = Fin z.
Proof. unfold ToIntegerOrInfinity; simpl. by rewrite andb_false_r. Qed.

Lemma relIndex_nonneg len z : (0 <= z)%Z -> relIndex len (Fin z) = Nat.min (Z.to_nat z) len.
Proof. intros Hz. simpl. destruct (z <? 0)%Z eqn:E; [lia|reflexivity]. Qed.

(** [l.slice(0, v)] is a prefix of [l], whatever [v] is. *)
Lemma slice_from_zero {A} (l : list A) (v : value) :
  exists f, f <= length l /\ slice l (VNumber (Int 0)) v = take f l.
Proof.
  unfold slice. rewrite ToIntegerOrInfinity_Int, (relIndex_nonneg _ 0) by lia. simpl.
  destruct v as [|n|s].
  - exists (length l). split; [lia|]. by rewrite Nat.sub_0_r.
  - eexists. split; [apply relIndex_le|]. by rewrite Nat.sub_0_r.
  - eexists. split; [apply relIndex_le|]. by rewrite Nat.sub_0_r.
Qed.

(** [l.slice(z)] is a suffix of [l]. *)
Lemma slice_to_end {A} (l : list A) (z : Z) :
  (0 <= z)%Z -> slice l (VNumber (Int z)) VUndefined = drop (Nat.min (Z.to_nat z) (length l)) l.
Proof.
  intros Hz. unfold slice. rewrite ToIntegerOrInfinity_Int, relIndex_nonneg by assumption.
  apply take_ge. rewrite length_drop. lia.
Qed.

Lemma slice_to {A} (l : list A) (z : Z) :
  (0 <= z)%Z -> slice l (VNumber (Int 0)) (VNumber (Int z)) = take (Nat.min (Z.to_nat z) (length l)) l.
Proof.
  intros Hz. unfold slice.
  rewrite !ToIntegerOrInfinity_Int, relIndex_nonneg by assumption.
  rewrite (relIndex_nonneg _ 0) by lia. simpl. by rewrite Nat.sub_0_r.
Qed.

Lemma cut_sublist {A} (l : list A) (a b : nat) :
  a <= b -> take a l ++ drop b l `sublist_of` l.
Proof.
  intros H. rewrite <- (take_drop a l) at 3.
  apply sublist_app; [reflexivity|].
  replace b with (a + (b - a)) by lia. rewrite <- drop_drop. apply sublist_drop.
Qed.

End JSFacts.

(* ================================================================== *)
(** * Facts about the matcher                                        *)
(* ================================================================== *)

Module RegExpFacts.
Import JS RegExp.
Local Open Scope nat_scope.

Lemma get_Some_lt (s : string) (n : nat) (a : ascii) :
  String.get n s = Some a -> n < String.length s.
Proof.
  revert n; induction s as [|c s IH]; intros [|n] H; simpl in *; try discriminate; try lia.
  apply IH in H. lia.
Qed.

Lemma length_substring (s : string) (n m : nat) :
  n + m <= String.length s -> String.length (String.substring n m s) = m.
Proof.
  revert n m; induction s as [|c s IH]; intros [|n] [|m] H; simpl in *; try lia.
  - rewrite IH; lia.
  - apply IH; lia.
  - apply IH; lia.
Qed.

Lemma substring_substring (s : string) (a n b m : nat) :
  a + n <= m ->
  String.substring a n (String.substring b m s) = String.substring (a + b) n s.
Proof.
  intros H. apply String.get_correct. intros p.
  destruct (decide (p < n)) as [Hp|Hp].
  - rewrite !String.substring_correct1 by lia. f_equal. lia.
  - rewrite !String.substring_correct2 by lia. reflexivity.
Qed.

Lemma index_occurrence (g s : string) (off : nat) :
  String.substring off (String.length g) s = g ->
  exists n, String.index 0 g s = Some n.
Proof.
  intros H. destruct (String.index 0 g s) as [n|] eqn:E; [eauto|].
  destruct (decide (g = EmptyString)) as [->|Hg].
  - apply String.index_correct4 in E. lia.
  - exfalso. eapply (String.index_correct3 0 off); eauto. lia.
Qed.

Section Soundness.

Variable input : string.
Variable start : nat.
Variable n : nat.

Local Abbreviation capOk := (capOk start).
Local Abbreviation wf := (wf input start n).
Local Abbreviation sound := (sound input start n).

Lemma capOk_mono e e' oc : e <= e' -> capOk e oc -> capOk e' oc.
Proof. destruct oc as [[s f]|]; simpl; [lia|auto]. Qed.

Lemma setCap_length k v cs : length (setCap k v cs) = length cs.
Proof. destruct k; simpl; [reflexivity|apply length_insert]. Qed.

Lemma setCap_Forall (P : option (nat * nat) -> Prop) k v cs :
  P v -> Forall P cs -> Forall P (setCap k v cs).
Proof. intros Hv Hcs. destruct k; simpl; [assumption|]. by apply Forall_insert. Qed.

Lemma clearCaps_length gs cs : length (clearCaps gs cs) = length cs.
Proof. induction gs as [|g gs IH]; simpl; [reflexivity|]. by rewrite setCap_length. Qed.

Lemma clearCaps_Forall e gs cs :
  Forall (capOk e) cs -> Forall (capOk e) (clearCaps gs cs).
Proof.
  intros H. induction gs as [|g gs IH]; simpl; [assumption|].
  apply setCap_Forall; [exact I|assumption].
Qed.

Lemma repeat_sound fuel m inner min max greedy :
  sound m -> sound (repeatMatcher fuel m inner min max greedy).
Proof.
  intros Hm. revert min max.
  induction fuel as [|fuel IH]; intros min max x c z Hx H; simpl in H; [discriminate|].
  destruct (bool_decide (max = Some 0)); [exists x; split; [assumption|split; [lia|assumption]]|].
  set (xr := {| endIndex := endIndex x; caps := clearCaps inner (caps x) |}) in *.
  assert (Hxr : wf xr).
  { destruct Hx as (H1 & H2 & H3 & H4). unfold RegExp.wf, xr; simpl.
    rewrite clearCaps_length. repeat split; try assumption.
    by apply clearCaps_Forall. }
  assert (Hiter : forall d', (forall y, d' y = Some z ->
             repeatMatcher fuel m inner (Nat.pred min) (Nat.pred <$> max) greedy y c = Some z) ->
           m xr d' = Some z ->
           exists y, wf y /\ endIndex x <= endIndex y /\ c y = Some z).
  { intros d' Hd' Hmz. destruct (Hm _ _ _ Hxr Hmz) as (y & Hy & Hle & Hdy).
    apply Hd' in Hdy. destruct (IH _ _ _ _ _ Hy Hdy) as (y' & Hy' & Hle' & Hc).
    exists y'. split; [assumption|]. split; [simpl in Hle; lia|assumption]. }
  match type of H with context [m xr ?d0] => set (d := d0) in * end.
  assert (Hd : forall y, d y = Some z ->
             repeatMatcher fuel m inner (Nat.pred min) (Nat.pred <$> max) greedy y c = Some z).
  { intros y. unfold d. destruct (_ && _); [discriminate|auto]. }
  destruct (negb (bool_decide (min = 0))); [eauto|].
  destruct greedy.
  - destruct (m xr d) eqn:E.
    + inversion H; subst. eauto.
    + exists x. split; [assumption|split; [lia|assumption]].
  - destruct (c x) eqn:E.
    + inversion H; subst. exists x. split; [assumption|split; [lia|assumption]].
    + eauto.
Qed.

Lemma matcher_sound r : sound (matcher r input).
Proof.
  assert (Hchar : forall r0 x (c : Cont) z, wf x ->
            match String.get (endIndex x) input with
            | Some a => if charMatches r0 a
                        then c {| endIndex := S (endIndex x); caps := caps x |}
                        else None
            | None => None
            end = Some z ->
            exists y, wf y /\ endIndex x <= endIndex y /\ c y = Some z).
  { intros r0 x c z Hx H.
    destruct (String.get (endIndex x) input) as [a|] eqn:E; [|discriminate].
    destruct (charMatches r0 a); [|discriminate].
    apply get_Some_lt in E.
    eexists. split; [|split; [|exact H]]; simpl; [|lia].
    destruct Hx as (H1 & H2 & H3 & H4). unfold RegExp.wf; simpl.
    repeat split; try lia; try assumption.
    eapply Forall_impl; [exact H4|]. intros oc. apply capOk_mono. lia. }
  induction r as [|ch| |neg rs| | |r1 IH1 r2 IH2|r1 IH1 r2 IH2|min max greedy r IH|k r IH];
    intros x c z Hx H; cbn [matcher] in H.
  - exists x. split; [assumption|split; [lia|assumption]].
  - exact (Hchar (Char ch) x c z Hx H).
  - exact (Hchar Any x c z Hx H).
  - exact (Hchar (Class neg rs) x c z Hx H).
  - destruct (bool_decide _); [|discriminate].
    exists x. split; [assumption|split; [lia|assumption]].
  - destruct (bool_decide _); [|discriminate].
    exists x. split; [assumption|split; [lia|assumption]].
  - destruct (IH1 _ _ _ Hx H) as (y & Hy & Hle & H2).
    destruct (IH2 _ _ _ Hy H2) as (y' & Hy' & Hle' & H3).
    exists y'. split; [assumption|split; [lia|assumption]].
  - destruct (matcher r1 input x c) eqn:E.
    + inversion H; subst. eapply IH1; eauto.
    + eapply IH2; eauto.
  - eapply repeat_sound; eauto.
  - destruct (IH _ _ _ Hx H) as (y & Hy & Hle & H2).
    eexists. split; [|split; [|exact H2]]; simpl; [|lia].
    destruct Hx as (H1 & H1' & H3 & H4). destruct Hy as (G1 & G2 & G3 & G4).
    unfold RegExp.wf; simpl. rewrite setCap_length.
    repeat split; try lia; try assumption.
    apply setCap_Forall; [simpl; lia|assumption].
Qed.

End Soundness.

Lemma matchAt_ok r input i m :
  i <= String.length input -> matchAt r input i = Some m -> matchOk r input i m.
Proof.
  intros Hi. unfold matchAt.
  destruct (matcher _ _ _ _) as [y|] eqn:E; [|discriminate].
  intros [= <-].
  assert (Hwf : wf input i (ngroups r)
                  {| endIndex := i; caps := replicate (ngroups r) None |}).
  { repeat split; simpl; try lia.
    - apply length_replicate.
    - apply Forall_replicate. exact I. }
  destruct (matcher_sound input i (ngroups r) r _ _ _ Hwf E)
    as (y' & Hy & _ & [= ->]).
  destruct Hy as (H1 & H2 & H3 & H4).
  assert (Hlen : String.length (between input (i, endIndex y)) = endIndex y - i).
  { unfold between; simpl. apply length_substring. lia. }
  split; simpl.
  - lia.
  - rewrite Hlen. lia.
  - rewrite Hlen. reflexivity.
  - by rewrite length_map.
  - intros k g Hk. rewrite list_lookup_fmap in Hk.
    destruct (caps y !! k) as [[[s e]|]|] eqn:Ek; simpl in Hk; try discriminate.
    injection Hk as <-.
    pose proof (Forall_lookup_1 _ _ _ _ H4 Ek) as Hc. simpl in Hc.
    exists (s - i). unfold between; simpl.
    rewrite (length_substring input s (e - s)) by lia.
    rewrite substring_substring by lia. f_equal. lia.
Qed.

Lemma searchFrom_ok n r input i m :
  i + n <= String.length input -> searchFrom n r input i = Some m -> matchOk r input i m.
Proof.
  revert i; induction n as [|n IH]; intros i Hi H; simpl in H.
  - destruct (matchAt r input i) eqn:E; [|discriminate].
    inversion H; subst. apply matchAt_ok; [lia|assumption].
  - destruct (matchAt r input i) eqn:E.
    + inversion H; subst. apply matchAt_ok; [lia|assumption].
    + apply IH in H; [|lia]. destruct H. split; try assumption. lia.
Qed.

Lemma execFrom_ok r input i m :
  execFrom r input i = Some m -> matchOk r input i m.
Proof.
  unfold execFrom. destruct (String.length input <? i) eqn:E; [discriminate|].
  apply Nat.ltb_ge in E. apply searchFrom_ok. lia.
Qed.

Lemma exec_ok r input m : exec r input = Some m -> matchOk r input 0 m.
Proof. apply execFrom_ok. Qed.

(** A group that took part in the match is found in the matched text. *)
Lemma exec_indexOf_group r input m k g :
  exec r input = Some m -> captures m !! k = Some (Some g) ->
  (0 <= indexOf (matched m) g)%Z.
Proof.
  intros Hm Hk. destruct (ok_within _ _ _ _ (exec_ok _ _ _ Hm) _ _ Hk) as [off Hoff].
  destruct (index_occurrence _ _ _ Hoff) as [p Hp].
  unfold indexOf. rewrite Hp. lia.
Qed.

(** [m[k]] is [undefined] past the last group of the pattern. *)
Lemma exec_get_beyond r input m k :
  exec r input = Some m -> ngroups r < k -> get m k = VUndefined.
Proof.
  intros Hm Hk. destruct k as [|j]; [lia|]. simpl.
  rewrite lookup_ge_None_2; [reflexivity|].
  rewrite (ok_groups _ _ _ _ (exec_ok _ _ _ Hm)). lia.
Qed.

(** ** Matches are faithful to the declarative reading *)

Section Faithful.

Variable input : string.
Variable whole : regex.

Lemma capsSpan_setCap_None k cs :
  capsSpan input whole cs -> capsSpan input whole (setCap k None cs).
Proof.
  intros H. destruct k as [|k]; simpl; [assumption|].
  intros j s e Hj. destruct (decide (k = j)) as [->|Hne].
  - destruct (decide (j < length cs)).
    + rewrite list_lookup_insert_eq in Hj by assumption. discriminate.
    + rewrite list_insert_ge in Hj by lia. eauto.
  - rewrite list_lookup_insert_ne in Hj by assumption. eauto.
Qed.

Lemma capsSpan_clearCaps gs cs :
  capsSpan input whole cs -> capsSpan input whole (clearCaps gs cs).
Proof.
  intros H. induction gs as [|g gs IH]; simpl; [assumption|].
  by apply capsSpan_setCap_None.
Qed.

Lemma capsSpan_setCap k body s e cs :
  (k, body) ∈ groupBodies whole -> spans input body s e ->
  capsSpan input whole cs -> capsSpan input whole (setCap k (Some (s, e)) cs).
Proof.
  intros Hk Hsp H. destruct k as [|k]; simpl; [assumption|].
  intros j s' e' Hj. destruct (decide (k = j)) as [->|Hne].
  - destruct (decide (j < length cs)).
    + rewrite list_lookup_insert_eq in Hj by assumption.
      injection Hj as <- <-. eauto.
    + rewrite list_insert_ge in Hj by lia. eauto.
  - rewrite list_lookup_insert_ne in Hj by assumption. eauto.
Qed.

Lemma repeat_faithful fuel r m inner min max greedy :
  faithful input whole r m ->
  faithful input whole (Quant min max greedy r) (repeatMatcher fuel m inner min max greedy).
Proof.
  intros Hm. revert min max.
  induction fuel as [|fuel IH]; intros min max x c z Hx H; simpl in H; [discriminate|].
  destruct (bool_decide (max = Some 0)) eqn:Emax.
  { apply bool_decide_eq_true_1 in Emax.
    exists x. split; [assumption|]. split; [|assumption].
    apply spans_quant_done. by right. }
  set (xr := {| endIndex := endIndex x; caps := clearCaps inner (caps x) |}) in *.
  assert (Hxr : capsSpan input whole (caps xr)) by (by apply capsSpan_clearCaps).
  match type of H with context [m xr ?d0] => set (d := d0) in * end.
  assert (Hiter : m xr d = Some z ->
            exists y, capsSpan input whole (caps y)
              /\ spans input (Quant min max greedy r) (endIndex x) (endIndex y)
              /\ c y = Some z).
  { intros Hmz. destruct (Hm _ _ _ Hxr Hmz) as (y & Hy & Hsp & Hdy).
    unfold d in Hdy. destruct (_ && _); [discriminate|].
    destruct (IH _ _ _ _ _ Hy Hdy) as (y' & Hy' & Hsp' & Hc).
    exists y'. split; [assumption|]. split; [|assumption].
    eapply spans_quant_more; eauto. }
  destruct (bool_decide (min = 0)) eqn:Emin; simpl in H; [|auto].
  apply bool_decide_eq_true_1 in Emin.
  assert (Hdone : c x = Some z ->
            exists y, capsSpan input whole (caps y)
              /\ spans input (Quant min max greedy r) (endIndex x) (endIndex y)
              /\ c y = Some z).
  { intros Hc. exists x. split; [assumption|]. split; [|assumption].
    apply spans_quant_done. by left. }
  destruct greedy.
  - destruct (m xr d) eqn:E; [inversion H; subst; auto|auto].
  - destruct (c x) eqn:E; [inversion H; subst; auto|auto].
Qed.

Lemma subseteq_app_inv_l {A} (l1 l2 l : list A) : l1 ++ l2 ⊆ l -> l1 ⊆ l.
Proof. intros H a Ha. apply H, elem_of_app. by left. Qed.

Lemma subseteq_app_inv_r {A} (l1 l2 l : list A) : l1 ++ l2 ⊆ l -> l2 ⊆ l.
Proof. intros H a Ha. apply H, elem_of_app. by right. Qed.

Lemma subseteq_cons_inv {A} (a : A) (l1 l : list A) : a :: l1 ⊆ l -> a ∈ l /\ l1 ⊆ l.
Proof.
  intros H. split; [apply H; by left|]. intros b Hb. apply H. by right.
Qed.

Lemma matcher_faithful r :
  groupBodies r ⊆ groupBodies whole -> faithful input whole r (matcher r input).
Proof.
  assert (Hchar : forall r0 x (c : Cont) z, capsSpan input whole (caps x) ->
            match String.get (endIndex x) input with
            | Some a => if charMatches r0 a
                        then c {| endIndex := S (endIndex x); caps := caps x |}
                        else None
            | None => None
            end = Some z ->
            exists y, capsSpan input whole (caps y)
              /\ spans input r0 (endIndex x) (endIndex y) /\ c y = Some z).
  { intros r0 x c z Hx H.
    destruct (String.get (endIndex x) input) as [a|] eqn:E; [|discriminate].
    destruct (charMatches r0 a) eqn:Ec; [|discriminate].
    eexists. split; [|split; [|exact H]]; simpl; [assumption|].
    by eapply spans_char. }
  induction r as [|ch| |neg rs| | |r1 IH1 r2 IH2|r1 IH1 r2 IH2|min max greedy r IH|k r IH];
    intros Hsub x c z Hx H; cbn [matcher] in H.
  - exists x. split; [assumption|]. split; [constructor|assumption].
  - exact (Hchar (Char ch) x c z Hx H).
  - exact (Hchar Any x c z Hx H).
  - exact (Hchar (Class neg rs) x c z Hx H).
  - destruct (bool_decide _) eqn:E; [|discriminate]. apply bool_decide_eq_true_1 in E.
    exists x. split; [assumption|]. split; [rewrite E; constructor|assumption].
  - destruct (bool_decide _) eqn:E; [|discriminate]. apply bool_decide_eq_true_1 in E.
    exists x. split; [assumption|]. split; [rewrite E; constructor|assumption].
  - simpl in Hsub.
    destruct (IH1 (subseteq_app_inv_l _ _ _ Hsub) _ _ _ Hx H) as (y & Hy & Hsp & H2).
    destruct (IH2 (subseteq_app_inv_r _ _ _ Hsub) _ _ _ Hy H2) as (y' & Hy' & Hsp' & H3).
    exists y'. split; [assumption|]. split; [by econstructor|assumption].
  - simpl in Hsub. destruct (matcher r1 input x c) eqn:E.
    + inversion H; subst.
      destruct (IH1 (subseteq_app_inv_l _ _ _ Hsub) _ _ _ Hx E) as (y & Hy & Hsp & H2).
      exists y. split; [assumption|]. split; [by apply spans_alt_l|assumption].
    + destruct (IH2 (subseteq_app_inv_r _ _ _ Hsub) _ _ _ Hx H) as (y & Hy & Hsp & H2).
      exists y. split; [assumption|]. split; [by apply spans_alt_r|assumption].
  - simpl in Hsub. eapply repeat_faithful; eauto.
  - simpl in Hsub. apply subseteq_cons_inv in Hsub as [Hk Hsub].
    destruct (IH Hsub _ _ _ Hx H) as (y & Hy & Hsp & H2).
    eexists. split; [|split; [|exact H2]]; simpl.
    + eapply capsSpan_setCap; eauto.
    + by constructor.
Qed.

End Faithful.

Lemma get_substring1 (s : string) (n : nat) (a : ascii) :
  String.get n s = Some a -> String.substring n 1 s = str1 a.
Proof.
  revert n; induction s as [|c s IH]; intros [|n] H; simpl in *; try discriminate.
  - injection H as ->. by destruct s.
  - by apply IH.
Qed.

(** The text of a match and of its groups is text that the pattern and the
    bodies of the groups describe. *)
Lemma matchAt_spans r input i m :
  matchAt r input i = Some m ->
  exists e, spans input r i e /\ matched m = between input (i, e)
    /\ forall j g, captures m !! j = Some (Some g) ->
         exists body s e', (S j, body) ∈ groupBodies r /\ spans input body s e'
                           /\ g = between input (s, e').
Proof.
  unfold matchAt. destruct (matcher _ _ _ _) as [y|] eqn:E; [|discriminate].
  intros [= <-].
  assert (H0 : capsSpan input r (caps {| endIndex := i; caps := replicate (ngroups r) None |})).
  { intros j s e Hj. simpl in Hj. apply lookup_replicate in Hj as [? _]. discriminate. }
  destruct (matcher_faithful input r r ltac:(done) _ _ _ H0 E) as (y' & Hy & Hsp & [= ->]).
  exists (endIndex y). simpl. split; [assumption|]. split; [reflexivity|].
  intros j g Hj. rewrite list_lookup_fmap in Hj.
  destruct (caps y !! j) as [[[s e]|]|] eqn:Ej; simpl in Hj; try discriminate.
  injection Hj as <-. destruct (Hy _ _ _ Ej) as (body & Hb & Hs).
  exists body, s, e. auto.
Qed.

Lemma matchAt_index r input i m : matchAt r input i = Some m -> index m = i.
Proof.
  unfold matchAt. destruct (matcher _ _ _ _); [|discriminate]. by intros [= <-].
Qed.

Lemma searchFrom_matchAt n r input i m :
  searchFrom n r input i = Some m -> matchAt r input (index m) = Some m.
Proof.
  revert i; induction n as [|n IH]; intros i H; simpl in H.
  - destruct (matchAt r input i) eqn:E; [|discriminate]. inversion H; subst.
    by rewrite (matchAt_index _ _ _ _ E).
  - destruct (matchAt r input i) eqn:E; [|eauto]. inversion H; subst.
    by rewrite (matchAt_index _ _ _ _ E).
Qed.

Lemma exec_matchAt r input m :
  exec r input = Some m -> matchAt r input (index m) = Some m.
Proof.
  unfold exec, execFrom. destruct (_ <? _); [discriminate|]. apply searchFrom_matchAt.
Qed.

(** ** Groups that are always set *)

Lemma setGroups_groupsOf r : setGroups r ⊆ groupsOf r.
Proof.
  induction r as [|ch| |neg rs| | |r1 IH1 r2 IH2|r1 IH1 r2 IH2|min max greedy r IH|k r IH];
    simpl; try (intros g Hg; by apply elem_of_nil in Hg).
  - intros g Hg. apply elem_of_app in Hg as [Hg|Hg]; apply elem_of_app; auto.
  - destruct min; [intros g Hg; by apply elem_of_nil in Hg|].
    destruct max; [intros g Hg; by apply elem_of_nil in Hg|assumption].
  - intros g Hg. apply elem_of_cons in Hg as [->|Hg]; [by left|right; auto].
Qed.

Lemma setCap_lookup_ne k v cs j :
  S j <> k -> setCap k v cs !! j = cs !! j.
Proof.
  intros Hne. destruct k as [|k]; simpl; [reflexivity|].
  apply list_lookup_insert_ne. lia.
Qed.

Lemma clearCaps_lookup_ne gs cs j :
  S j ∉ gs -> clearCaps gs cs !! j = cs !! j.
Proof.
  intros Hn. induction gs as [|g gs IH]; simpl; [reflexivity|].
  apply not_elem_of_cons in Hn as [Hne Hn].
  rewrite setCap_lookup_ne by assumption. auto.
Qed.

Lemma repeat_setting fuel r m greedy :
  setting r m ->
  forall min max x c z,
    fits r (caps x) ->
    repeatMatcher fuel m (groupsOf r) min max greedy x c = Some z ->
    exists y, repeatOk r min max x y /\ c y = Some z.
Proof.
  intros Hm.
  induction fuel as [|fuel IH]; intros min max x c z Hx H; simpl in H; [discriminate|].
  assert (Hstay : c x = Some z -> (min = 0 \/ max = Some 0) ->
            exists y, repeatOk r min max x y /\ c y = Some z).
  { intros Hc Hz. exists x. split; [|assumption].
    split; [reflexivity|]. split; [auto|].
    intros [[H1 H2]|Hs]; [|assumption]. destruct Hz; [lia|congruence]. }
  destruct (bool_decide (max = Some 0)) eqn:Emax.
  { apply bool_decide_eq_true_1 in Emax. auto. }
  set (xr := {| endIndex := endIndex x; caps := clearCaps (groupsOf r) (caps x) |}) in *.
  assert (Hxr : fits r (caps xr)).
  { intros j Hj. simpl. rewrite clearCaps_length. auto. }
  match type of H with context [m xr ?d0] => set (d := d0) in * end.
  assert (Hiter : m xr d = Some z ->
            exists y, repeatOk r min max x y /\ c y = Some z).
  { intros Hmz. destruct (Hm _ _ _ Hxr Hmz) as (y & (Hl & Hout & Hset) & Hdy).
    unfold d in Hdy. destruct (_ && _); [discriminate|].
    assert (Hy : fits r (caps y)).
    { intros j Hj. rewrite Hl. auto. }
    destruct (IH _ _ _ _ _ Hy Hdy) as (y' & (Hl' & Hout' & Hset') & Hc).
    exists y'. split; [|assumption]. split; [|split].
    - rewrite Hl', Hl. simpl. apply clearCaps_length.
    - intros j Hj. rewrite Hout', Hout by assumption. simpl.
      by apply clearCaps_lookup_ne.
    - intros _. apply Hset'. right. assumption. }
  destruct (bool_decide (min = 0)) eqn:Emin; simpl in H; [|auto].
  apply bool_decide_eq_true_1 in Emin.
  destruct greedy.
  - destruct (m xr d) eqn:E; [inversion H; subst; auto|auto].
  - destruct (c x) eqn:E; [inversion H; subst; auto|auto].
Qed.

Lemma matcher_setting input r : NoDup (groupsOf r) -> setting r (matcher r input).
Proof.
  assert (Hsame : forall r0 x, setGroups r0 = [] -> stepOk r0 x x).
  { intros r0 x H0. split; [reflexivity|]. split; [auto|].
    rewrite H0. intros j Hj. by apply elem_of_nil in Hj. }
  assert (Hchar : forall r0 x (c : Cont) z, setGroups r0 = [] ->
            match String.get (endIndex x) input with
            | Some a => if charMatches r0 a
                        then c {| endIndex := S (endIndex x); caps := caps x |}
                        else None
            | None => None
            end = Some z ->
            exists y, stepOk r0 x y /\ c y = Some z).
  { intros r0 x c z H0 H.
    destruct (String.get (endIndex x) input) as [a|]; [|discriminate].
    destruct (charMatches r0 a); [|discriminate].
    eexists. split; [|exact H]. split; [reflexivity|]. split; [auto|].
    rewrite H0. intros j Hj. by apply elem_of_nil in Hj. }
  induction r as [|ch| |neg rs| | |r1 IH1 r2 IH2|r1 IH1 r2 IH2|min max greedy r IH|k r IH];
    intros Hnd x c z Hx H; cbn [matcher] in H.
  - exists x. auto.
  - exact (Hchar (Char ch) x c z eq_refl H).
  - exact (Hchar Any x c z eq_refl H).
  - exact (Hchar (Class neg rs) x c z eq_refl H).
  - destruct (bool_decide _); [|discriminate]. exists x. auto.
  - destruct (bool_decide _); [|discriminate]. exists x. auto.
  - simpl in Hnd. apply NoDup_app in Hnd as (Hnd1 & Hdisj & Hnd2).
    assert (Hx1 : fits r1 (caps x)).
    { intros j Hj. apply Hx. simpl. apply elem_of_app. by left. }
    destruct (IH1 Hnd1 _ _ _ Hx1 H) as (y & (Hl & Hout & Hset) & H2).
    assert (Hy2 : fits r2 (caps y)).
    { intros j Hj. rewrite Hl. apply Hx. simpl. apply elem_of_app. by right. }
    destruct (IH2 Hnd2 _ _ _ Hy2 H2) as (y' & (Hl' & Hout' & Hset') & H3).
    exists y'. split; [|assumption]. split; [congruence|]. split.
    + intros j Hj. simpl in Hj. apply not_elem_of_app in Hj as [Hj1 Hj2].
      rewrite Hout', Hout by assumption. reflexivity.
    + intros j Hj. simpl in Hj. apply elem_of_app in Hj as [Hj|Hj]; [|auto].
      destruct (Hset _ Hj) as [se Hse]. exists se.
      rewrite Hout'; [assumption|]. apply Hdisj. by apply setGroups_groupsOf.
  - assert (Hx1 : fits r1 (caps x)).
    { intros j Hj. apply Hx. simpl. apply elem_of_app. by left. }
    assert (Hx2 : fits r2 (caps x)).
    { intros j Hj. apply Hx. simpl. apply elem_of_app. by right. }
    simpl in Hnd. apply NoDup_app in Hnd as (Hnd1 & Hdisj & Hnd2).
    assert (Halt : forall y ri, stepOk ri x y ->
              (forall g, g ∈ groupsOf ri -> g ∈ groupsOf r1 ++ groupsOf r2) ->
              stepOk (Alt r1 r2) x y).
    { intros y ri (Hl & Hout & _) Hin. split; [assumption|]. split.
      - intros j Hj. apply Hout. intros Hj'. apply Hj. simpl. auto.
      - simpl. intros j Hj. by apply elem_of_nil in Hj. }
    destruct (matcher r1 input x c) eqn:E.
    + inversion H; subst. destruct (IH1 Hnd1 _ _ _ Hx1 E) as (y & Hy & H2).
      exists y. split; [|assumption]. apply (Halt y r1 Hy).
      intros g Hg. apply elem_of_app. by left.
    + destruct (IH2 Hnd2 _ _ _ Hx2 H) as (y & Hy & H2).
      exists y. split; [|assumption]. apply (Halt y r2 Hy).
      intros g Hg. apply elem_of_app. by right.
  - simpl in Hnd.
    destruct (repeat_setting _ r _ greedy (IH Hnd) min max x c z Hx H)
      as (y & (Hl & Hout & Hset) & Hc).
    exists y. split; [|assumption]. split; [assumption|]. split; [assumption|].
    simpl. destruct min as [|min]; [intros j Hj; by apply elem_of_nil in Hj|].
    destruct max; [intros j Hj; by apply elem_of_nil in Hj|].
    apply Hset. left. split; [lia|reflexivity].
  - simpl in Hnd. apply NoDup_cons in Hnd as [Hk Hnd].
    assert (Hx' : fits r (caps x)).
    { intros j Hj. apply Hx. simpl. by right. }
    destruct (IH Hnd _ _ _ Hx' H) as (y & (Hl & Hout & Hset) & H2).
    eexists. split; [|exact H2]. split; [|split]; cbn [caps endIndex].
    + by rewrite setCap_length.
    + intros j Hj. simpl in Hj. apply not_elem_of_cons in Hj as [Hne Hj].
      rewrite setCap_lookup_ne by assumption. auto.
    + intros j Hj. simpl in Hj. apply elem_of_cons in Hj as [<-|Hj].
      * eexists. simpl. apply list_lookup_insert_eq. rewrite Hl. apply Hx. simpl. by left.
      * destruct (Hset _ Hj) as [se Hse]. exists se.
        rewrite setCap_lookup_ne; [assumption|].
        intros <-. apply Hk. by apply setGroups_groupsOf.
Qed.

(** A group that the pattern always sets has a text in every match. *)
Lemma matchAt_group_set r input i m j :
  NoDup (groupsOf r) -> (forall k, S k ∈ groupsOf r -> k < ngroups r) ->
  S j ∈ setGroups r ->
  matchAt r input i = Some m -> exists g, captures m !! j = Some (Some g).
Proof.
  intros Hnd Hfit Hj. unfold matchAt.
  destruct (matcher _ _ _ _) as [y|] eqn:E; [|discriminate]. intros [= <-]. simpl.
  assert (Hx : fits r (caps {| endIndex := i; caps := replicate (ngroups r) None |})).
  { intros k Hk. simpl. rewrite length_replicate. auto. }
  destruct (matcher_setting input r Hnd _ _ _ Hx E) as (y' & (_ & _ & Hset) & [= ->]).
  destruct (Hset _ Hj) as [se Hse].
  exists (between input se). by rewrite list_lookup_fmap, Hse.
Qed.

End RegExpFacts.

(* ================================================================== *)
(** * Facts about the detector                                       *)
(* ================================================================== *)

Module TalonFacts.
Import JS RegExp Methods Talon RegExpFacts JSFacts.
Local Open Scope nat_scope.

Section Detector.

Variable lib : Library.

(** Whenever the inline-reply shape occurs in the markers the guard reads
    group 3 of a pattern that has two groups. *)
Lemma inlineReplyGuard_throws lines markers result rest :
  is_Some (exec reInlineReply markers) ->
  inlineReplyGuard lib lines markers result rest = Throw TypeError.
Proof.
  intros [m Hm]. unfold inlineReplyGuard. rewrite Hm.
  rewrite (exec_get_beyond _ _ _ 3 Hm) by (simpl; lia). reflexivity.
Qed.

Lemma processMarkedLines_inline_throws lines markers :
  matchStart markers reLeadingForward = None ->
  is_Some (exec reInlineReply markers) ->
  processMarkedLines lib lines markers = Throw TypeError.
Proof.
  intros Hf Hi. unfold processMarkedLines. rewrite Hf.
  rewrite bool_decide_eq_false_2 by (intros [? ?]; discriminate).
  by apply inlineReplyGuard_throws.
Qed.

(** The three ways in which the detector returns. *)
Lemma processMarkedLines_cases lines markers r :
  processMarkedLines lib lines markers = Normal r ->
  r = untouched lines
  \/ (exists q, exec reTrailingQuote markers = Some q /\ r = trailingCut lines q)
  \/ (exists re q g, (re = Quotation lib \/ re = EmptyQuotation lib) /\
        exec re markers = Some q /\ captures q !! 0 = Some (Some g) /\
        r = boundedBlock lines q g).
Proof.
  unfold processMarkedLines.
  destruct (bool_decide (is_Some (matchStart markers reLeadingForward))).
  { intros [= <-]. by left. }
  unfold inlineReplyGuard.
  destruct (exec reInlineReply markers) as [im|].
  { destruct (elementAt lines (get im 3)); [|discriminate].
    destruct (bool_decide _); [discriminate|].
    destruct (elementAt lines (plus1 (get im 3))); [|discriminate].
    destruct (bool_decide _); [discriminate|].
    intros [= <-]. by left. }
  destruct (exec reTrailingQuote markers) as [q|] eqn:Et.
  { intros [= <-]. right; left. eauto. }
  assert (Hblock : forall re q, (re = Quotation lib \/ re = EmptyQuotation lib) ->
            exec re markers = Some q ->
            match get q 1 with
            | VString group1 => Normal (boundedBlock lines q group1)
            | _ => Throw TypeError
            end = Normal r ->
            exists re q g, (re = Quotation lib \/ re = EmptyQuotation lib) /\
              exec re markers = Some q /\ captures q !! 0 = Some (Some g) /\
              r = boundedBlock lines q g).
  { intros re q Hre Hq. simpl.
    destruct (captures q !! 0) as [[g|]|] eqn:Eg; try discriminate.
    intros [= <-]. exists re, q, g. split; [assumption|]. split; [assumption|].
    split; [assumption|reflexivity]. }
  destruct (exec (Quotation lib) markers) as [q|] eqn:Eq.
  { intros H. right; right. exact (Hblock (Quotation lib) q (or_introl eq_refl) Eq H). }
  destruct (exec (EmptyQuotation lib) markers) as [q|] eqn:Ee.
  { intros H. right; right. exact (Hblock (EmptyQuotation lib) q (or_intror eq_refl) Ee H). }
  intros [= <-]. by left.
Qed.

(** The range that the bounded-block heuristic removes. *)
Lemma boundedBlock_lines re lines markers q g :
  exec re markers = Some q -> captures q !! 0 = Some (Some g) ->
  exists a b, a <= b <= length lines /\
    lastMessageLines (boundedBlock lines q g) = take a lines ++ drop b lines.
Proof.
  intros Hq Hg. pose proof (exec_indexOf_group _ _ _ _ _ Hq Hg) as Hi.
  unfold boundedBlock. cbn [lastMessageLines]. unfold numberValue.
  rewrite slice_to, slice_to_end by lia.
  eexists _, _. split; [|reflexivity]. lia.
Qed.

Lemma survivors_cut lines markers r :
  processMarkedLines lib lines markers = Normal r ->
  exists a b, a <= b <= length lines /\
    lastMessageLines r = take a lines ++ drop b lines.
Proof.
  intros H. destruct (processMarkedLines_cases _ _ _ H)
    as [->|[(q & Hq & ->)|(re & q & g & _ & Hq & Hg & ->)]].
  - exists 0, 0. split; [lia|]. reflexivity.
  - destruct (slice_from_zero lines (get q 3)) as (f & Hf & Hs).
    exists f, (length lines). split; [lia|].
    change (lastMessageLines (trailingCut lines q))
      with (slice lines (VNumber (Int 0)) (get q 3)).
    by rewrite Hs, drop_all, app_nil_r.
  - eapply boundedBlock_lines; eauto.
Qed.

End Detector.

(** ** The trailing-quote cut *)

(** Group 3 of the trailing-quote pattern always takes part in a match,
    and its text is one marker, "t" or "f". *)
Lemma trailingQuote_group3 markers q :
  exec reTrailingQuote markers = Some q ->
  get q 3 = VString "t" \/ get q 3 = VString "f".
Proof.
  intros Hq. apply exec_matchAt in Hq.
  destruct (matchAt_group_set reTrailingQuote markers (index q) q 2) as [g Hg];
    [compute_done| |compute_done|assumption|].
  { intros k Hk. simpl in Hk. rewrite !elem_of_cons, elem_of_nil in Hk. simpl. lia. }
  destruct (matchAt_spans _ _ _ _ Hq) as (e & _ & _ & Hgroups).
  destruct (Hgroups _ _ Hg) as (body & s & e' & Hb & Hsp & ->).
  simpl. rewrite Hg.
  assert (body = Alt (Char "t") (Char "f")) as ->.
  { simpl in Hb. rewrite !elem_of_cons, elem_of_nil in Hb.
    destruct Hb as [Hb|[Hb|[Hb|[]]]]; by inversion Hb. }
  assert (Hone : forall ch, spans markers (Char ch) s e' -> between markers (s, e') = str1 ch).
  { intros ch H. inversion H; subst. simpl in *.
    match goal with Hc : bool_decide _ = true |- _ => apply bool_decide_eq_true_1 in Hc; subst end.
    unfold between; simpl. replace (S s - s) with 1 by lia. by apply get_substring1. }
  inversion Hsp; subst.
  - simpl in *. discriminate.
  - left. f_equal. by apply Hone.
  - right. f_equal. by apply Hone.
Qed.

(** Whenever the trailing-quote heuristic is reached and its pattern
    matches, no line survives. *)
Lemma trailing_cut_keeps_nothing lib lines markers :
  matchStart markers reLeadingForward = None ->
  exec reInlineReply markers = None ->
  is_Some (exec reTrailingQuote markers) ->
  exists c, (c = "t" \/ c = "f") /\
    processMarkedLines lib lines markers
    = Normal {| lastMessageLines := [];
                wereLinesDeleted := true;
                firstDeletedLine := VString c;
                lastDeletedLine := numberValue (Z.of_nat (length lines)) |}.
Proof.
  intros Hf Hi [q Hq]. unfold processMarkedLines, inlineReplyGuard.
  rewrite Hf, Hi, Hq.
  rewrite bool_decide_eq_false_2 by (intros [? ?]; discriminate).
  destruct (trailingQuote_group3 _ _ Hq) as [->| ->]; eexists; (split; [|reflexivity]); auto.
Qed.

End TalonFacts.

(* ================================================================== *)
(** * The model is adequate: fuel and termination                    *)
(* ================================================================== *)

Module Adequacy.
Import JS RegExp Methods Talon RegExpFacts JSFacts TalonFacts.
Local Open Scope nat_scope.

Section Fuel.

Variable input : string.

Local Abbreviation local := (local input).

Lemma repeat_local fuel m inner min max greedy :
  local m -> local (repeatMatcher fuel m inner min max greedy).
Proof.
  intros Hm. revert min max.
  induction fuel as [|fuel IH]; intros min max x c c' Hx Hc; simpl; [reflexivity|].
  rewrite (Hc x) by lia.
  match goal with |- context [m ?xr' ?d1'] => set (xr := xr'); set (d1 := d1') end.
  match goal with |- context [m xr ?d2'] =>
    lazymatch d2' with d1 => fail | _ => set (d2 := d2') end end.
  assert (Hd : m xr d1 = m xr d2).
  { apply Hm; [assumption|]. intros y Hy1 Hy2. unfold d1, d2.
    destruct (_ && _); [reflexivity|].
    apply IH; [assumption|]. intros y' Hy'1 Hy'2. apply Hc; simpl in *; lia. }
  rewrite Hd. reflexivity.
Qed.

Lemma matcher_local r : local (matcher r input).
Proof.
  induction r as [|ch| |neg rs| | |r1 IH1 r2 IH2|r1 IH1 r2 IH2|min max greedy r IH|k r IH];
    intros x c c' Hx Hc; cbn [matcher].
  - apply Hc; lia.
  - destruct (String.get (endIndex x) input) as [a|] eqn:E; [|reflexivity].
    apply get_Some_lt in E. destruct (charMatches _ a); [|reflexivity]. apply Hc; simpl; lia.
  - destruct (String.get (endIndex x) input) as [a|] eqn:E; [|reflexivity].
    apply get_Some_lt in E. destruct (charMatches _ a); [|reflexivity]. apply Hc; simpl; lia.
  - destruct (String.get (endIndex x) input) as [a|] eqn:E; [|reflexivity].
    apply get_Some_lt in E. destruct (charMatches _ a); [|reflexivity]. apply Hc; simpl; lia.
  - destruct (bool_decide _); [apply Hc; lia|reflexivity].
  - destruct (bool_decide _); [apply Hc; lia|reflexivity].
  - apply IH1; [assumption|]. intros y Hy1 Hy2.
    apply IH2; [assumption|]. intros y' Hy'1 Hy'2. apply Hc; lia.
  - rewrite (IH1 x c c'), (IH2 x c c') by assumption. reflexivity.
  - apply repeat_local; assumption.
  - apply IH; [assumption|]. intros y Hy1 Hy2. apply Hc; simpl; lia.
Qed.

(** Fuel beyond [min] plus the distance to the end of the input changes
    nothing. *)
Lemma repeat_fuel m inner greedy c :
  local m ->
  forall fuel1 fuel2 min max x,
    endIndex x <= String.length input ->
    min + (String.length input - endIndex x) < fuel1 ->
    min + (String.length input - endIndex x) < fuel2 ->
    repeatMatcher fuel1 m inner min max greedy x c
    = repeatMatcher fuel2 m inner min max greedy x c.
Proof.
  intros Hm. induction fuel1 as [|fuel1 IH]; intros fuel2 min max x Hx H1 H2; [lia|].
  destruct fuel2 as [|fuel2]; [lia|]. simpl.
  match goal with |- context [m ?xr' ?d1'] => set (xr := xr'); set (d1 := d1') end.
  match goal with |- context [m xr ?d2'] =>
    lazymatch d2' with d1 => fail | _ => set (d2 := d2') end end.
  assert (Hd : m xr d1 = m xr d2).
  { apply Hm; [assumption|]. intros y Hy1 Hy2. unfold d1, d2. simpl in Hy1.
    destruct (bool_decide (min = 0)) eqn:Emin; simpl.
    - apply bool_decide_eq_true_1 in Emin. subst min.
      destruct (bool_decide (endIndex y = endIndex x)) eqn:Ey; [reflexivity|].
      apply bool_decide_eq_false_1 in Ey. apply IH; simpl; lia.
    - apply bool_decide_eq_false_1 in Emin. apply IH; lia. }
  rewrite Hd. reflexivity.
Qed.

End Fuel.

(** The fuel that [matcher] gives to a quantifier is enough: with more of
    it the result is the same. *)
Theorem quantifier_fuel_enough input r min max greedy x c extra :
  endIndex x <= String.length input ->
  matcher (Quant min max greedy r) input x c
  = repeatMatcher (S (min + (String.length input - endIndex x)) + extra)
      (matcher r input) (groupsOf r) min max greedy x c.
Proof.
  intros Hx. cbn [matcher].
  apply (repeat_fuel input); [apply matcher_local|assumption|lia|lia].
Qed.

(** *** replace *)

Lemma replaceLoop_fuel re s f :
  forall fuel1 fuel2 lastIndex next acc,
    String.length s <= fuel1 + lastIndex ->
    String.length s <= fuel2 + lastIndex ->
    replaceLoop fuel1 re s f lastIndex next acc = replaceLoop fuel2 re s f lastIndex next acc.
Proof.
  assert (Hlast : forall fuel m next acc,
            execFrom (source re) s (String.length s) = Some m ->
            replaceLoop fuel re s f
              (if bool_decide (matched m = EmptyString)
               then S (index m + String.length (matched m))
               else index m + String.length (matched m))
              next acc
            = Normal (acc +:+ substringFrom s next)).
  { intros fuel m next acc Hm. pose proof (execFrom_ok _ _ _ _ Hm) as [Hi He _ _ _].
    assert (Hz : String.length (matched m) = 0) by lia.
    destruct (matched m); [|discriminate]. simpl.
    assert (Ex : execFrom (source re) s (S (index m + 0)) = None).
    { unfold execFrom. rewrite (proj2 (Nat.ltb_lt _ _)); [reflexivity|lia]. }
    destruct fuel; simpl; rewrite Ex; reflexivity. }
  induction fuel1 as [|fuel1 IH]; intros fuel2 lastIndex next acc H1 H2.
  - destruct fuel2 as [|fuel2]; [reflexivity|]. simpl.
    destruct (execFrom (source re) s lastIndex) as [m|] eqn:Em; [|reflexivity].
    destruct (f m) as [rep| |]; simpl; try reflexivity.
    destruct (global re); [|reflexivity].
    pose proof (execFrom_ok _ _ _ _ Em) as [Hi He _ _ _].
    assert (lastIndex = String.length s) by lia. subst lastIndex.
    by rewrite (Hlast _ _ _ _ Em).
  - destruct fuel2 as [|fuel2]; simpl.
    + destruct (execFrom (source re) s lastIndex) as [m|] eqn:Em; [|reflexivity].
      destruct (f m) as [rep| |]; simpl; try reflexivity.
      destruct (global re); [|reflexivity].
      pose proof (execFrom_ok _ _ _ _ Em) as [Hi He _ _ _].
      assert (lastIndex = String.length s) by lia. subst lastIndex.
      by rewrite (Hlast _ _ _ _ Em).
    + destruct (execFrom (source re) s lastIndex) as [m|] eqn:Em; [|reflexivity].
      destruct (f m) as [rep| |]; simpl; try reflexivity.
      destruct (global re); [|reflexivity].
      pose proof (execFrom_ok _ _ _ _ Em) as [Hi He _ _ _].
      apply IH.
      * destruct (bool_decide _) eqn:E; [lia|].
        apply bool_decide_eq_false_1 in E. destruct (matched m); [done|simpl in *; lia].
      * destruct (bool_decide _) eqn:E; [lia|].
        apply bool_decide_eq_false_1 in E. destruct (matched m); [done|simpl in *; lia].
Qed.

(** The fuel that [replace] gives to its loop is enough. *)
Theorem replace_fuel_enough re s f extra :
  replace re s f = replaceLoop (String.length s + extra) re s f 0 0 EmptyString.
Proof. unfold replace. apply replaceLoop_fuel; lia. Qed.

Lemma replaceLoop_halts re s f :
  (forall m, f m <> Diverge) ->
  forall fuel lastIndex next acc, replaceLoop fuel re s f lastIndex next acc <> Diverge.
Proof.
  intros Hf. induction fuel as [|fuel IH]; intros lastIndex next acc; simpl.
  - destruct (execFrom _ _ _) as [m|]; [|discriminate].
    specialize (Hf m). destruct (f m); simpl; try done. by destruct (global re).
  - destruct (execFrom _ _ _) as [m|]; [|discriminate].
    specialize (Hf m). destruct (f m); simpl; try done.
    destruct (global re); [apply IH|discriminate].
Qed.

(** *** The classifier *)

Section Classifier.

Variable lib : Library.
Hypothesis arity : 1 <= splitLines_length lib.

Lemma markStep_advances lines index markers :
  (index < snd (markStep lib lines index markers))%Z.
Proof.
  unfold markStep.
  repeat (destruct (bool_decide _); [simpl; lia|]).
  destruct (isSplitter _ _); simpl; lia.
Qed.

Lemma markLoop_halts lines :
  forall fuel index markers,
    (0 <= index)%Z -> length lines - Z.to_nat index <= fuel ->
    exists ms, markLoop lib fuel lines index markers = Normal ms.
Proof.
  induction fuel as [|fuel IH]; intros index markers H0 Hf; simpl.
  - rewrite (proj2 (Z.ltb_ge _ _)) by lia. simpl. eauto.
  - destruct (index <? Z.of_nat (length lines))%Z eqn:E; simpl; [|eauto].
    apply Z.ltb_lt in E.
    pose proof (markStep_advances lines index markers) as Hadv.
    destruct (markStep lib lines index markers) as [markers' index']. simpl in Hadv.
    apply IH; lia.
Qed.

(** The classifier returns a marker string. *)
Lemma markMessageLines_halts lines :
  exists markers, markMessageLines lib lines = Normal markers.
Proof.
  unfold markMessageLines.
  destruct (markLoop_halts lines (length lines) 0 (newArray (length lines)))
    as [ms Hms]; [lia|lia|].
  rewrite Hms. simpl. eauto.
Qed.

End Classifier.

(** *** The detector and the pipeline *)

(** The detector returns or throws: the turns of its loop that would run
    for ever are never reached. *)
Lemma processMarkedLines_halts lib lines markers :
  processMarkedLines lib lines markers <> Diverge.
Proof.
  unfold processMarkedLines.
  destruct (bool_decide _); [discriminate|].
  destruct (exec reInlineReply markers) as [m|] eqn:Em.
  - rewrite inlineReplyGuard_throws by eauto. discriminate.
  - unfold inlineReplyGuard. rewrite Em.
    destruct (exec reTrailingQuote markers); [discriminate|].
    destruct (exec (Quotation lib) markers) as [q|].
    + destruct (get q 1); discriminate.
    + destruct (exec (EmptyQuotation lib) markers) as [q|]; [|discriminate].
      destruct (get q 1); discriminate.
Qed.

Lemma preprocess_halts lib body delimiter contentType :
  preprocess lib body delimiter contentType <> Diverge.
Proof.
  unfold preprocess, replace.
  destruct (replaceLoop _ _ _ _ _ _ _) as [pre| |] eqn:E; simpl; [|discriminate|].
  - destruct (negb _); [discriminate|].
    apply replaceLoop_halts. intros m. unfold splitterReplacer.
    destruct (_ && _); discriminate.
  - exfalso. revert E. apply replaceLoop_halts. intros m. unfold linkReplacer.
    destruct (captures m) as [|p1 [|p2 [|p3 ps]]]; try discriminate.
    + destruct (bool_decide _); discriminate.
    + destruct p3; simpl; [|discriminate]. destruct (bool_decide _); discriminate.
Qed.

Lemma postProcess_halts lib s : postProcess lib s <> Diverge.
Proof.
  unfold postProcess, replace.
  destruct (replaceLoop _ _ _ _ _ _ _) eqn:E; simpl; try discriminate.
  exfalso. revert E. apply replaceLoop_halts. intros m. discriminate.
Qed.

(** With a [splitLines] of one parameter or more, the plain-text pipeline
    returns or throws. *)
Lemma extractFromPlain_halts lib body :
  1 <= splitLines_length lib -> extractFromPlain lib body <> Diverge.
Proof.
  intros Harity. unfold extractFromPlain.
  pose proof (preprocess_halts lib body (findDelimiter lib body) None) as Hp.
  destruct (preprocess _ _ _ _) as [pre| |]; simpl; [|discriminate|done].
  destruct (markMessageLines_halts lib Harity
              (slice (splitLines lib pre) (numberValue 0) (numberValue (MaxLinesCount lib))))
    as [markers ->]. simpl.
  pose proof (processMarkedLines_halts lib
                (slice (splitLines lib pre) (numberValue 0) (numberValue (MaxLinesCount lib)))
                markers) as Hd.
  destruct (processMarkedLines _ _ _) as [r| |]; simpl; [|discriminate|done].
  apply postProcess_halts.
Qed.

End Adequacy.


(* ================================================================== *)
(** * The classifier, turn by turn                                      *)
(* ================================================================== *)

Module ClassifierFacts.
Import JS RegExp Methods Talon RegExpFacts JSFacts TalonFacts Notions.
Local Open Scope nat_scope.

Section Classifier.

Variable lib : Library.
Variable lines : list string.

(** One turn of the loop, read through [lineMarker] and [splitterAt]. *)
Lemma markStep_spec i line markers :
  lines !! i = Some line ->
  markStep lib lines (Z.of_nat i) markers
  = match splitterAt lib lines i with
    | None => (arraySet markers i (lineMarker lib line), (Z.of_nat i + 1)%Z)
    | Some m => (markSplitter (length (splitLines lib (matched m))) i markers,
                 (Z.of_nat i + Z.of_nat (splitLines_length lib))%Z)
    end.
Proof.
  intros Hl. unfold markStep, splitterAt, lineMarker, splitterWindow.
  rewrite Nat2Z.id, Hl. simpl.
  destruct (bool_decide (line = EmptyString)); [reflexivity|].
  destruct (bool_decide (is_Some (matchStart line (QuotePattern lib)))); [reflexivity|].
  destruct (bool_decide (is_Some (matchStart line (Forward lib)))); [reflexivity|].
  simpl. destruct (isSplitter _ _); [|reflexivity]. f_equal. lia.
Qed.

Lemma markLoop_unfold fuel i line markers :
  lines !! i = Some line ->
  markLoop lib (S fuel) lines (Z.of_nat i) markers
  = let '(markers', index') := markStep lib lines (Z.of_nat i) markers in
    markLoop lib fuel lines index' markers'.
Proof.
  intros Hl. apply lookup_lt_Some in Hl. simpl.
  rewrite (proj2 (Z.ltb_lt _ _)) by lia. reflexivity.
Qed.

Lemma markLoop_done fuel i markers :
  length lines <= i -> markLoop lib fuel lines (Z.of_nat i) markers = Normal markers.
Proof.
  intros Hi. destruct fuel; simpl; rewrite (proj2 (Z.ltb_ge _ _)) by lia; reflexivity.
Qed.

(** *** Without a splitter the classifier is a map over the lines *)

Lemma arraySet_next (done : list (option string)) n v :
  arraySet (done ++ replicate (S n) None) (length done) v
  = (done ++ [Some v]) ++ replicate n None.
Proof.
  unfold arraySet. rewrite length_app, length_replicate.
  rewrite (proj2 (Nat.ltb_lt _ _)) by lia.
  rewrite insert_app_r_alt by lia. rewrite Nat.sub_diag. simpl.
  by rewrite <- app_assoc.
Qed.

Lemma markLoop_map fuel i :
  (forall k, splitterAt lib lines k = None) ->
  i <= length lines -> length lines - i <= fuel ->
  markLoop lib fuel lines (Z.of_nat i)
    ((Some ∘ lineMarker lib <$> take i lines) ++ replicate (length lines - i) None)
  = Normal (Some ∘ lineMarker lib <$> lines).
Proof.
  intros Hno. revert i. induction fuel as [|fuel IH]; intros i Hi Hf.
  - assert (i = length lines) as -> by lia.
    rewrite markLoop_done by lia. rewrite take_ge, Nat.sub_diag by lia.
    simpl. by rewrite app_nil_r.
  - destruct (decide (i = length lines)) as [->|Hne].
    + rewrite markLoop_done by lia. rewrite take_ge, Nat.sub_diag by lia.
      simpl. by rewrite app_nil_r.
    + destruct (lookup_lt_is_Some_2 lines i) as [line Hl]; [lia|].
      rewrite (markLoop_unfold _ _ line) by assumption.
      rewrite (markStep_spec _ line) by assumption. rewrite Hno.
      replace (length lines - i) with (S (length lines - S i)) by lia.
      pose proof (arraySet_next (Some ∘ lineMarker lib <$> take i lines)
                    (length lines - S i) (lineMarker lib line)) as Hset.
      rewrite length_fmap, length_take, Nat.min_l in Hset by lia.
      rewrite Hset.
      replace (Z.of_nat i + 1)%Z with (Z.of_nat (S i)) by lia.
      rewrite <- (IH (S i)) by lia.
      rewrite (take_S_r _ _ _ Hl), fmap_app. reflexivity.
Qed.

Lemma append_empty_r (s : string) : s +:+ EmptyString = s.
Proof.
  induction s as [|c s IH]; [reflexivity|].
  change (String c (s +:+ EmptyString) = String c s). by rewrite IH.
Qed.

Lemma joinMarkers_Some (l : list string) :
  joinMarkers (Some <$> l) = String.concat EmptyString l.
Proof.
  induction l as [|x l IH]; [reflexivity|].
  rewrite fmap_cons.
  change (joinMarkers (Some x :: (Some <$> l))) with (x +:+ joinMarkers (Some <$> l)).
  rewrite IH. destruct l as [|y l]; [apply append_empty_r|reflexivity].
Qed.

(** *** When the loop never ends *)

Lemma markLoop_stuck i m :
  splitLines_length lib = 0 -> splitterAt lib lines i = Some m ->
  forall fuel markers, markLoop lib fuel lines (Z.of_nat i) markers = Diverge.
Proof.
  intros Har Hs.
  assert (Hl : is_Some (lines !! i)).
  { unfold splitterAt in Hs. destruct (lines !! i); [eauto|discriminate]. }
  destruct Hl as [line Hl].
  induction fuel as [|fuel IH]; intros markers.
  - simpl. apply lookup_lt_Some in Hl. rewrite (proj2 (Z.ltb_lt _ _)) by lia. reflexivity.
  - rewrite (markLoop_unfold _ _ line) by assumption.
    rewrite (markStep_spec _ line) by assumption. rewrite Hs, Har.
    replace (Z.of_nat i + Z.of_nat 0)%Z with (Z.of_nat i) by lia. apply IH.
Qed.

Lemma markLoop_arity0 fuel :
  splitLines_length lib = 0 ->
  forall i markers, i + fuel = length lines ->
    (markLoop lib fuel lines (Z.of_nat i) markers = Diverge
     /\ exists k, i <= k /\ is_Some (splitterAt lib lines k))
    \/ ((exists ms, markLoop lib fuel lines (Z.of_nat i) markers = Normal ms)
        /\ forall k, i <= k -> splitterAt lib lines k = None).
Proof.
  intros Har. induction fuel as [|fuel IH]; intros i markers Hi.
  - right. split; [exists markers; apply markLoop_done; lia|].
    intros k Hk. unfold splitterAt. rewrite lookup_ge_None_2 by lia. reflexivity.
  - destruct (splitterAt lib lines i) as [m|] eqn:Es.
    + left. split; [by eapply markLoop_stuck|]. exists i. split; [lia|]. rewrite Es. eauto.
    + destruct (lookup_lt_is_Some_2 lines i) as [line Hl]; [lia|].
      rewrite (markLoop_unfold _ _ line) by assumption.
      rewrite (markStep_spec _ line) by assumption. rewrite Es.
      replace (Z.of_nat i + 1)%Z with (Z.of_nat (S i)) by lia.
      destruct (IH (S i) (arraySet markers i (lineMarker lib line)) ltac:(lia))
        as [[Hd (k & Hk & Hsk)]|[Hn Hno]].
      * left. split; [assumption|]. exists k. split; [lia|assumption].
      * right. split; [assumption|]. intros k Hk.
        destruct (decide (k = i)) as [->|]; [assumption|apply Hno; lia].
Qed.

(** *** Every marker is one of the five *)

Lemma arraySet_entries markers i c :
  c ∈ markerAlphabet -> Forall markerEntry markers ->
  Forall markerEntry (arraySet markers i (str1 c)).
Proof.
  intros Hc H. assert (Hv : markerEntry (Some (str1 c))).
  { intros v [= <-]. eauto. }
  unfold arraySet. destruct (_ <? _).
  - by apply Forall_insert.
  - apply Forall_app. split; [assumption|]. apply Forall_app. split.
    + apply Forall_replicate. intros v Hv'. discriminate.
    + by apply Forall_singleton.
Qed.

Lemma markSplitter_entries n i markers :
  Forall markerEntry markers -> Forall markerEntry (markSplitter n i markers).
Proof.
  intros H. induction n as [|n IH]; simpl; [assumption|].
  apply (arraySet_entries _ _ "s"%char); [|assumption].
  unfold markerAlphabet. rewrite !elem_of_cons. auto.
Qed.

Lemma markStep_entries index markers :
  Forall markerEntry markers -> Forall markerEntry (fst (markStep lib lines index markers)).
Proof.
  intros H. unfold markStep.
  assert (He : forall c, c ∈ markerAlphabet ->
            Forall markerEntry (arraySet markers (Z.to_nat index) (str1 c))).
  { intros c Hc. by apply arraySet_entries. }
  assert (Hin : forall c, c ∈ ["e"; "m"; "f"; "t"]%char -> c ∈ markerAlphabet).
  { intros c. unfold markerAlphabet. rewrite !elem_of_cons, !elem_of_nil. tauto. }
  destruct (bool_decide _); [apply (He "e"%char), Hin; rewrite !elem_of_cons; auto|].
  destruct (bool_decide _); [apply (He "m"%char), Hin; rewrite !elem_of_cons; auto|].
  destruct (bool_decide _); [apply (He "f"%char), Hin; rewrite !elem_of_cons; auto|].
  destruct (isSplitter _ _); simpl.
  - by apply markSplitter_entries.
  - apply (He "t"%char), Hin. rewrite !elem_of_cons; auto.
Qed.

Lemma markLoop_entries fuel :
  forall index markers ms,
    Forall markerEntry markers ->
    markLoop lib fuel lines index markers = Normal ms -> Forall markerEntry ms.
Proof.
  induction fuel as [|fuel IH]; intros index markers ms H; simpl.
  - destruct (negb _); [by intros [= <-]|discriminate].
  - destruct (negb _); [by intros [= <-]|].
    pose proof (markStep_entries index markers H) as Hs.
    destruct (markStep lib lines index markers) as [markers' index']. eauto.
Qed.

Lemma list_ascii_app (s t : string) :
  String.list_ascii_of_string (s +:+ t)
  = String.list_ascii_of_string s ++ String.list_ascii_of_string t.
Proof.
  induction s as [|c s IH]; [reflexivity|].
  change (c :: String.list_ascii_of_string (s +:+ t)
          = c :: String.list_ascii_of_string s ++ String.list_ascii_of_string t).
  by rewrite IH.
Qed.

Lemma joinMarkers_alphabet markers :
  Forall markerEntry markers ->
  Forall (fun c => c ∈ markerAlphabet) (String.list_ascii_of_string (joinMarkers markers)).
Proof.
  induction 1 as [|o markers Ho _ IH]; [constructor|].
  change (joinMarkers (o :: markers)) with (default EmptyString o +:+ joinMarkers markers).
  rewrite list_ascii_app. apply Forall_app. split; [|assumption].
  destruct o as [v|]; [|constructor].
  destruct (Ho v eq_refl) as (c & Hc & ->). simpl.
  apply Forall_cons. split; [exact Hc|constructor].
Qed.

(** *** One marker per line *)

Lemma arraySet_inside markers i v :
  i < length markers ->
  length (arraySet markers i v) = length markers
  /\ arraySet markers i v !! i = Some (Some v)
  /\ forall k w, markers !! k = Some (Some w) -> exists w', arraySet markers i v !! k = Some (Some w').
Proof.
  intros Hi. unfold arraySet. rewrite (proj2 (Nat.ltb_lt _ _)) by assumption.
  split; [apply length_insert|]. split; [by apply list_lookup_insert_eq|].
  intros k w Hk. destruct (decide (i = k)) as [->|Hne].
  - rewrite list_lookup_insert_eq by assumption. eauto.
  - rewrite list_lookup_insert_ne by assumption. eauto.
Qed.

Lemma markSplitter_inside n i markers :
  i + n <= length markers ->
  length (markSplitter n i markers) = length markers
  /\ (1 <= n -> exists w, markSplitter n i markers !! i = Some (Some w))
  /\ forall k w, markers !! k = Some (Some w) ->
       exists w', markSplitter n i markers !! k = Some (Some w').
Proof.
  induction n as [|n IH]; intros Hn; simpl.
  - split; [reflexivity|]. split; [lia|eauto].
  - destruct (IH ltac:(lia)) as (Hl & Hi & Hk).
    destruct (arraySet_inside (markSplitter n i markers) (i + n) "s" ltac:(lia))
      as (Hl' & Hi' & Hk').
    split; [lia|]. split.
    + intros _. destruct n as [|n].
      * replace (i + 0) with i in * by lia. eauto.
      * destruct (Hi ltac:(lia)) as [w Hw]. eapply Hk'. eauto.
    + intros k w Hw. destruct (Hk _ _ Hw) as [w' Hw']. eapply Hk'. eauto.
Qed.

End Classifier.

Lemma markLoop_never_throws lib lines e :
  forall fuel index markers, markLoop lib fuel lines index markers <> Throw e.
Proof.
  induction fuel as [|fuel IH]; intros index markers; simpl.
  - destruct (negb _); discriminate.
  - destruct (negb _); [discriminate|].
    destruct (markStep lib lines index markers) as [markers' index']. apply IH.
Qed.

Lemma markSplitter_lookup n i markers k :
  i + n <= length markers ->
  markSplitter n i markers !! k
  = if bool_decide (i <= k < i + n) then Some (Some "s") else markers !! k.
Proof.
  induction n as [|n IH]; intros Hfit; simpl.
  - rewrite bool_decide_eq_false_2 by lia. reflexivity.
  - assert (Hlen : length (markSplitter n i markers) = length markers).
    { apply markSplitter_inside. lia. }
    unfold arraySet. rewrite Hlen.
    rewrite (proj2 (Nat.ltb_lt _ _)) by lia.
    destruct (decide (k = i + n)) as [->|Hne].
    + rewrite list_lookup_insert_eq by lia.
      rewrite bool_decide_eq_true_2 by lia. reflexivity.
    + rewrite list_lookup_insert_ne by lia. rewrite IH by lia.
      destruct (decide (i <= k < i + n)).
      * rewrite !bool_decide_eq_true_2 by lia. reflexivity.
      * rewrite !bool_decide_eq_false_2 by lia. reflexivity.
Qed.

Lemma arraySet_lookup markers i v k :
  i < length markers ->
  arraySet markers i v !! k = if bool_decide (k = i) then Some (Some v) else markers !! k.
Proof.
  intros Hi. unfold arraySet. rewrite (proj2 (Nat.ltb_lt _ _)) by lia.
  destruct (decide (k = i)) as [->|Hne].
  - rewrite bool_decide_eq_true_2 by reflexivity. by rewrite list_lookup_insert_eq.
  - rewrite bool_decide_eq_false_2 by assumption. by rewrite list_lookup_insert_ne.
Qed.

Lemma classified_lookup lib lines i line :
  lines !! i = Some line ->
  classified lib lines !! i
  = Some (match splitterAt lib lines i with
          | Some _ => "s"
          | None => lineMarker lib line
          end).
Proof. intros H. unfold classified. rewrite list_lookup_imap, H. reflexivity. Qed.

Lemma markLoop_classified lib lines :
  splitLines_length lib = 1 ->
  (forall i m, splitterAt lib lines i = Some m ->
     1 <= length (splitLines lib (matched m))
     /\ i + length (splitLines lib (matched m)) <= length lines) ->
  forall fuel i markers,
    length lines - i <= fuel -> i <= length lines ->
    length markers = length lines ->
    (forall k, k < i -> markers !! k = Some <$> classified lib lines !! k) ->
    markLoop lib fuel lines (Z.of_nat i) markers = Normal (Some <$> classified lib lines).
Proof.
  intros Har Hfit.
  assert (Hend : forall markers, length markers = length lines ->
            (forall k, k < length lines -> markers !! k = Some <$> classified lib lines !! k) ->
            markers = Some <$> classified lib lines).
  { intros markers Hl Hall. apply list_eq. intros k. rewrite list_lookup_fmap.
    destruct (decide (k < length lines)) as [Hk|Hk]; [by apply Hall|].
    rewrite !lookup_ge_None_2; [reflexivity| |lia].
    unfold classified. rewrite length_imap. lia. }
  induction fuel as [|fuel IH]; intros i markers Hf Hi Hl Hdone.
  - rewrite markLoop_done by lia. f_equal. apply Hend; [assumption|].
    intros k Hk. apply Hdone. lia.
  - destruct (decide (i = length lines)) as [->|Hne].
    { rewrite markLoop_done by lia. f_equal. by apply Hend. }
    destruct (lookup_lt_is_Some_2 lines i) as [line Hline]; [lia|].
    rewrite (markLoop_unfold _ _ _ _ line) by assumption.
    rewrite (markStep_spec _ _ _ line) by assumption.
    pose proof (classified_lookup lib lines i line Hline) as Hc.
    destruct (splitterAt lib lines i) as [m|] eqn:Es.
    + destruct (Hfit _ _ Es) as [H1 H2].
      rewrite Har. replace (Z.of_nat i + Z.of_nat 1)%Z with (Z.of_nat (S i)) by lia.
      apply IH; try lia.
      * rewrite <- Hl. apply markSplitter_inside. lia.
      * intros k Hk. rewrite markSplitter_lookup by lia.
        destruct (decide (k = i)) as [->|Hki].
        -- rewrite bool_decide_eq_true_2 by lia. by rewrite Hc.
        -- rewrite bool_decide_eq_false_2 by lia. apply Hdone. lia.
    + replace (Z.of_nat i + 1)%Z with (Z.of_nat (S i)) by lia.
      apply IH; try lia.
      * rewrite <- Hl. apply arraySet_inside. lia.
      * intros k Hk. rewrite arraySet_lookup by lia.
        destruct (decide (k = i)) as [->|Hki].
        -- rewrite bool_decide_eq_true_2 by lia. by rewrite Hc.
        -- rewrite bool_decide_eq_false_2 by lia. apply Hdone. lia.
Qed.

Lemma concat_length_ones (l : list string) :
  Forall (fun s => String.length s = 1) l ->
  String.length (String.concat EmptyString l) = length l.
Proof.
  induction 1 as [|s l Hs _ IH]; [reflexivity|].
  destruct l as [|t l].
  - simpl. lia.
  - change (String.concat EmptyString (s :: t :: l))
      with (s +:+ EmptyString +:+ String.concat EmptyString (t :: l)).
    rewrite !length_append, IH. simpl. lia.
Qed.

(** *** Lines without a splitter and without a quote prefix *)

Lemma markMessageLines_map lib lines :
  (forall k, splitterAt lib lines k = None) ->
  markMessageLines lib lines
  = Normal (String.concat EmptyString (lineMarker lib <$> lines)).
Proof.
  intros Hno. unfold markMessageLines, newArray.
  pose proof (markLoop_map lib lines (length lines) 0 Hno ltac:(lia) ltac:(lia)) as H.
  rewrite take_0, Nat.sub_0_r in H. change (Z.of_nat 0) with 0%Z in H.
  change ((Some ∘ lineMarker lib <$> []) ++ replicate (length lines) None)
    with (replicate (length lines) (@None string)) in H.
  rewrite H. simpl.
  by rewrite list_fmap_compose, joinMarkers_Some.
Qed.

Lemma concat_cons (s : string) (l : list string) :
  String.concat EmptyString (s :: l) = s +:+ String.concat EmptyString l.
Proof. destruct l; [symmetry; apply append_empty_r|reflexivity]. Qed.

Lemma lineMarker_cases lib line :
  lineMarker lib line = "e" \/ lineMarker lib line = "m"
  \/ lineMarker lib line = "f" \/ lineMarker lib line = "t".
Proof. unfold lineMarker. repeat (destruct (bool_decide _); [tauto|]). tauto. Qed.

Lemma lineMarkers_unmarked lib lines :
  Forall (fun line => lineMarker lib line <> "m") lines ->
  unmarked (String.concat EmptyString (lineMarker lib <$> lines)).
Proof.
  induction 1 as [|line lines Hline _ IH]; intros i.
  - destruct i; simpl; split; discriminate.
  - rewrite fmap_cons, concat_cons.
    destruct (lineMarker_cases lib line) as [E|[E|[E|E]]]; [|done| |]; rewrite E;
      (destruct i as [|i]; [split; discriminate|apply (IH i)]).
Qed.

End ClassifierFacts.

(* ================================================================== *)
(** * The patterns of the detector                                      *)
(* ================================================================== *)

Module DetectorFacts.
Import JS RegExp Methods Talon RegExpFacts JSFacts TalonFacts Adequacy Notions ClassifierFacts.
Local Open Scope nat_scope.

Lemma groupsOf_le_ngroups r k : k ∈ groupsOf r -> k <= ngroups r.
Proof.
  induction r as [|ch| |neg rs| | |r1 IH1 r2 IH2|r1 IH1 r2 IH2|min max greedy r IH|g r IH];
    simpl; intros Hk; try (by apply elem_of_nil in Hk).
  - apply elem_of_app in Hk as [Hk|Hk]; [apply IH1 in Hk|apply IH2 in Hk]; lia.
  - apply elem_of_app in Hk as [Hk|Hk]; [apply IH1 in Hk|apply IH2 in Hk]; lia.
  - auto.
  - apply elem_of_cons in Hk as [->|Hk]; [lia|apply IH in Hk; lia].
Qed.

(** A match of a pattern whose group 1 is always set has a text for it. *)
Lemma exec_group_one r input q :
  groupOneSet r -> exec r input = Some q -> exists g, captures q !! 0 = Some (Some g).
Proof.
  intros [Hnd H1] Hq. apply exec_matchAt in Hq.
  eapply (matchAt_group_set r input (index q) q 0); eauto.
  intros k Hk. apply groupsOf_le_ngroups in Hk. lia.
Qed.

(** *** The leading forward *)

Lemma repeat_star_unfold fuel m inner x c :
  repeatMatcher (S fuel) m inner 0 None true x c
  = match m {| endIndex := endIndex x; caps := clearCaps inner (caps x) |}
            (fun y => if bool_decide (endIndex y = endIndex x) then None
                      else repeatMatcher fuel m inner 0 None true y c) with
    | Some z => Some z
    | None => c x
    end.
Proof. reflexivity. Qed.

Section LeadingForward.

Variable markers : string.
Variable j : nat.
Hypothesis before : forall k, k < j ->
  String.get k markers = Some "t"%char \/ String.get k markers = Some "e"%char.
Hypothesis forward : String.get j markers = Some "f"%char.

Lemma star_run n : forall i fuel cs,
  i + n = j -> n < fuel ->
  exists z, repeatMatcher fuel (matcher (Class false (chars "te")) markers) [] 0 None true
              {| endIndex := i; caps := cs |}
              (fun y => matcher (Char "f") markers y Some) = Some z.
Proof.
  induction n as [|n IH]; intros i fuel cs Hi Hf; (destruct fuel as [|fuel]; [lia|]);
    rewrite repeat_star_unfold; cbn [matcher endIndex caps clearCaps foldr].
  - assert (i = j) as -> by lia. rewrite forward.
    change (charMatches (Class false (chars "te")) "f") with false.
    change (charMatches (Char "f") "f") with true. cbn iota. eauto.
  - assert (Hc : exists a, String.get i markers = Some a
                           /\ charMatches (Class false (chars "te")) a = true).
    { destruct (before i ltac:(lia)) as [Hg|Hg]; eauto. }
    destruct Hc as (a & -> & ->).
    rewrite bool_decide_eq_false_2 by lia.
    destruct (IH (S i) fuel cs ltac:(lia) ltac:(lia)) as [z Hz].
    cbn [matcher] in Hz. rewrite Hz. eauto.
Qed.

Lemma leadingForward_matches : is_Some (matchStart markers reLeadingForward).
Proof.
  pose proof (get_Some_lt _ _ _ forward) as Hlen.
  destruct (star_run j 0 (S (0 + (String.length markers - 0))) [] ltac:(lia) ltac:(lia))
    as [z Hz].
  assert (Hm : exists m, matchAt reLeadingForward markers 0 = Some m /\ index m = 0).
  { assert (Hz' : matcher reLeadingForward markers
                     {| endIndex := 0; caps := replicate (ngroups reLeadingForward) None |}
                     Some = Some z) by exact Hz.
    unfold matchAt. rewrite Hz'. eauto. }
  destruct Hm as (m & Hm & Hi).
  unfold matchStart, exec, execFrom. simpl.
  destruct (String.length markers); simpl; rewrite Hm, Hi; simpl; eauto.
Qed.

End LeadingForward.

Lemma substring_length_le s : forall n m,
  String.length (String.substring n m s) <= String.length s - n.
Proof.
  induction s as [|c s IH]; intros n m.
  - destruct n, m; simpl; lia.
  - destruct n as [|n]; simpl.
    + destruct m as [|m]; simpl; [lia|]. specialize (IH 0 m). lia.
    + apply IH.
Qed.

Lemma index_empty s : String.index 0 EmptyString s = Some 0.
Proof. destruct s; reflexivity. Qed.

Lemma index_fits g s n :
  String.index 0 g s = Some n -> n + String.length g <= String.length s.
Proof.
  intros H. destruct (decide (g = EmptyString)) as [->|Hg].
  - rewrite index_empty in H. injection H as <-. simpl. lia.
  - pose proof (String.index_correct1 _ _ _ _ H) as Hs.
    pose proof (substring_length_le s n (String.length g)) as Hl.
    rewrite Hs in Hl. destruct g; [done|]. simpl in *. lia.
Qed.

Lemma substring_prefix s : forall n, String.prefix (String.substring 0 n s) s = true.
Proof.
  induction s as [|c s IH]; intros [|n]; simpl; try reflexivity.
  destruct (ascii_dec c c) as [_|Hne]; [apply IH|done].
Qed.

(** *** What a match of the literal patterns says about the markers *)

Lemma spans_le input r s e : spans input r s e -> s <= e.
Proof. induction 1; lia. Qed.

Lemma spans_Char input c s e :
  spans input (Char c) s e -> e = S s /\ String.get s input = Some c.
Proof.
  inversion 1; subst.
  match goal with Hm : charMatches _ _ = true |- _ =>
    simpl in Hm; apply bool_decide_eq_true_1 in Hm; subst end.
  auto.
Qed.

Lemma spans_Seq input r1 r2 s e :
  spans input (Seq r1 r2) s e -> exists m, spans input r1 s m /\ spans input r2 m e.
Proof. inversion 1; subst; simpl in *; try discriminate; eauto. Qed.

Lemma spans_Group input n r s e : spans input (Group n r) s e -> spans input r s e.
Proof. inversion 1; subst; simpl in *; try discriminate; eauto. Qed.

Lemma spans_Alt input r1 r2 s e :
  spans input (Alt r1 r2) s e -> spans input r1 s e \/ spans input r2 s e.
Proof. inversion 1; subst; simpl in *; try discriminate; eauto. Qed.

Lemma spans_Plus input r s e :
  spans input (Plus r) s e -> exists m, spans input r s m /\ spans input (Star r) m e.
Proof.
  unfold Plus, Star. inversion 1; subst; simpl in *; try discriminate; eauto.
  match goal with Hd : _ \/ _ |- _ => destruct Hd; discriminate end.
Qed.

Lemma class_te a :
  charMatches (Class false (chars "te")) a = true -> a = "t"%char \/ a = "e"%char.
Proof.
  destruct a as [[] [] [] [] [] [] [] []]; intros H; vm_compute in H;
    try discriminate H; auto.
Qed.

Lemma spans_Star_te input s e :
  spans input (Star (Class false (chars "te"))) s e ->
  forall k, s <= k < e -> String.get k input = Some "t"%char
                          \/ String.get k input = Some "e"%char.
Proof.
  unfold Star. remember (Quant 0 None true (Class false (chars "te"))) as q eqn:Eq.
  intros H. revert Eq.
  induction H as [| | | | | | |min max greedy r s Hd
                  |min max greedy r s m e H1 _ H2 IH2|]; intros Eq; try discriminate Eq.
  - simpl in *. subst. discriminate.
  - intros k Hk. lia.
  - injection Eq as -> -> -> ->. intros k Hk.
    inversion H1; subst.
    destruct (decide (k = s)) as [->|Hne].
    + match goal with Hm : charMatches _ _ = true, Hg : String.get _ _ = Some _ |- _ =>
        rewrite Hg; destruct (class_te _ Hm) as [->| ->]; auto end.
    + apply IH2; [reflexivity|lia].
Qed.

Lemma leadingForward_shape markers :
  is_Some (matchStart markers reLeadingForward) -> forwardLeads markers.
Proof.
  intros [m Hm]. unfold matchStart in Hm.
  destruct (exec reLeadingForward markers) as [x|] eqn:Ex; [|discriminate].
  destruct (bool_decide (index x = 0)) eqn:Ei; [|discriminate].
  apply bool_decide_eq_true_1 in Ei. apply exec_matchAt in Ex. rewrite Ei in Ex.
  destruct (matchAt_spans _ _ _ _ Ex) as (e & Hsp & _).
  apply spans_Seq in Hsp as (mid & Hstar & Hf).
  apply spans_Char in Hf as [_ Hf].
  exists mid. split; [|assumption].
  intros k Hk. apply (spans_Star_te _ _ _ Hstar). lia.
Qed.

Lemma inlineReply_shape markers q :
  exec reInlineReply markers = Some q ->
  exists i p j, i < p < j
    /\ String.get i markers = Some "m"%char
    /\ String.get p markers = Some "t"%char
    /\ String.get j markers = Some "m"%char.
Proof.
  intros Hq. apply exec_matchAt in Hq.
  destruct (matchAt_spans _ _ _ _ Hq) as (e & Hsp & _).
  apply spans_Seq in Hsp as (a & Hg1 & Hrest).
  apply spans_Group, spans_Char in Hg1 as [-> Hm].
  apply spans_Seq in Hrest as (b & He & Hrest).
  apply spans_le in He.
  apply spans_Seq in Hrest as (c & Hg2 & Hlast).
  apply spans_Group, spans_Plus in Hg2 as (x & Hx & Hstar). apply spans_le in Hstar.
  apply spans_Seq in Hx as (y & Ht & Hes). apply spans_le in Hes.
  apply spans_Plus in Ht as (z & Ht & Hts). apply spans_le in Hts.
  apply spans_Char in Ht as [-> Ht].
  apply spans_Char in Hlast as [_ Hlast].
  exists (index q), b, c. split; [lia|]. auto.
Qed.

Lemma trailingQuote_shape markers q :
  exec reTrailingQuote markers = Some q ->
  exists i j, i < j
    /\ String.get i markers = Some "s"%char
    /\ (String.get j markers = Some "t"%char \/ String.get j markers = Some "f"%char).
Proof.
  intros Hq. apply exec_matchAt in Hq.
  destruct (matchAt_spans _ _ _ _ Hq) as (e & Hsp & _).
  apply spans_Seq in Hsp as (a & Hp1 & Hp2).
  apply spans_Plus in Hp1 as (x & Hg1 & Hstar1). apply spans_le in Hstar1.
  apply spans_Group, spans_Seq in Hg1 as (y & Hs & He).
  apply spans_le in He. apply spans_Char in Hs as [-> Hs].
  apply spans_Plus in Hp2 as (z & Hg2 & _).
  apply spans_Group, spans_Seq in Hg2 as (w & Hp3 & _).
  apply spans_Plus in Hp3 as (v & Hg3 & _).
  apply spans_Group, spans_Alt in Hg3 as [Hl|Hr].
  - exists (index q), a. split; [lia|]. split; [assumption|].
    left. by apply spans_Char in Hl as [_ Hl].
  - exists (index q), a. split; [lia|]. split; [assumption|].
    right. by apply spans_Char in Hr as [_ Hr].
Qed.

Lemma spans_Quant_S input n g r s e :
  spans input (Quant (S n) None g r) s e ->
  exists m, spans input r s m /\ spans input (Quant n None g r) m e.
Proof.
  inversion 1; subst; simpl in *; try discriminate; eauto.
  match goal with Hd : _ \/ _ |- _ => destruct Hd; discriminate end.
Qed.

(** *** The detector on markers without a splitter or a quote marker *)

Lemma detector_keeps_unmarked lib lines markers :
  quotationNeedsMarker lib -> unmarked markers ->
  processMarkedLines lib lines markers = Normal (untouched lines).
Proof.
  intros Hlib Hun. unfold processMarkedLines.
  destruct (bool_decide _); [reflexivity|].
  unfold inlineReplyGuard.
  destruct (exec reInlineReply markers) as [q|] eqn:Ei.
  { destruct (inlineReply_shape _ _ Ei) as (i & _ & _ & _ & Hm & _).
    by destruct (Hun i) as [_ []]. }
  destruct (exec reTrailingQuote markers) as [q|] eqn:Et.
  { destruct (trailingQuote_shape _ _ Et) as (i & _ & _ & Hs & _).
    by destruct (Hun i) as [[] _]. }
  destruct (Hlib markers Hun) as [-> ->]. reflexivity.
Qed.

End DetectorFacts.

(* ================================================================== *)
(** * The stages of the pipeline return                                 *)
(* ================================================================== *)

Module PipelineFacts.
Import JS RegExp Methods Talon RegExpFacts JSFacts TalonFacts Adequacy Notions
       ClassifierFacts DetectorFacts.
Local Open Scope nat_scope.

(** *** replace *)

Lemma substring_all s : String.substring 0 (String.length s) s = s.
Proof. induction s as [|c s IH]; [reflexivity|]. simpl. by rewrite IH. Qed.

Lemma substringFrom_0 s : substringFrom s 0 = s.
Proof. unfold substringFrom. rewrite Nat.sub_0_r. apply substring_all. Qed.

Lemma replace_no_match re s f :
  exec (source re) s = None -> replace re s f = Normal s.
Proof.
  intros H. unfold replace, exec in *.
  destruct (String.length s); simpl; rewrite H; by rewrite substringFrom_0.
Qed.

Lemma replaceLoop_returns re s f :
  (forall i m, execFrom (source re) s i = Some m -> exists rep, f m = Normal rep) ->
  forall fuel lastIndex next acc,
    exists out, replaceLoop fuel re s f lastIndex next acc = Normal out.
Proof.
  intros Hf. induction fuel as [|fuel IH]; intros lastIndex next acc; simpl.
  - destruct (execFrom _ _ _) as [m|] eqn:E; [|eauto].
    destruct (Hf _ _ E) as [rep ->]. simpl. destruct (global re); eauto.
  - destruct (execFrom _ _ _) as [m|] eqn:E; [|eauto].
    destruct (Hf _ _ E) as [rep ->]. simpl. destruct (global re); eauto.
Qed.

(** *** preprocess and postProcess *)

Lemma preprocess_returns lib body delimiter contentType :
  ngroups (source (Link lib)) = 1 ->
  exists pre, preprocess lib body delimiter contentType = Normal pre.
Proof.
  intros Hone. unfold preprocess, replace.
  destruct (replaceLoop_returns (Link lib) body (linkReplacer body)) with
    (fuel := String.length body) (lastIndex := 0) (next := 0) (acc := EmptyString)
    as [pre ->].
  { intros i m Hm. pose proof (ok_groups _ _ _ _ (execFrom_ok _ _ _ _ Hm)) as Hg.
    rewrite Hone in Hg. unfold linkReplacer.
    destruct (captures m) as [|p1 [|p2 ps]]; try discriminate.
    destruct (bool_decide _); eauto. }
  simpl. destruct (negb _); [eauto|].
  apply replaceLoop_returns. intros i m _. unfold splitterReplacer.
  destruct (_ && _); eauto.
Qed.

Lemma postProcess_returns lib s :
  exists restored, replace (NormalizedLink lib) s bracketed = Normal restored
                   /\ postProcess lib s = Normal (trim restored).
Proof.
  unfold postProcess, replace.
  destruct (replaceLoop_returns (NormalizedLink lib) s bracketed) with
    (fuel := String.length s) (lastIndex := 0) (next := 0) (acc := EmptyString)
    as [restored Hr].
  { intros i m _. unfold bracketed. eauto. }
  exists restored. by rewrite Hr.
Qed.

(** *** The detector *)

Lemma detector_returns lib lines markers :
  groupOneSet (Quotation lib) -> groupOneSet (EmptyQuotation lib) ->
  exec reInlineReply markers = None ->
  exists r, processMarkedLines lib lines markers = Normal r.
Proof.
  intros HQ HE Hi. unfold processMarkedLines, inlineReplyGuard. rewrite Hi.
  destruct (bool_decide _); [eauto|].
  destruct (exec reTrailingQuote markers); [eauto|].
  destruct (exec (Quotation lib) markers) as [q|] eqn:Eq.
  { destruct (exec_group_one _ _ _ HQ Eq) as [g Hg]. simpl. rewrite Hg. eauto. }
  destruct (exec (EmptyQuotation lib) markers) as [q|] eqn:Ee; [|eauto].
  destruct (exec_group_one _ _ _ HE Ee) as [g Hg]. simpl. rewrite Hg. eauto.
Qed.

Lemma detector_throws_iff lib lines markers :
  groupOneSet (Quotation lib) -> groupOneSet (EmptyQuotation lib) ->
  (processMarkedLines lib lines markers = Throw TypeError <-> inlineReplyReached markers)
  /\ (~ inlineReplyReached markers ->
      exists r, processMarkedLines lib lines markers = Normal r).
Proof.
  intros HQ HE. unfold inlineReplyReached.
  destruct (matchStart markers reLeadingForward) as [m|] eqn:Ef.
  { assert (H : processMarkedLines lib lines markers = Normal (untouched lines)).
    { unfold processMarkedLines. rewrite Ef.
      rewrite bool_decide_eq_true_2 by eauto. reflexivity. }
    rewrite H. split; [split; [discriminate|intros [? _]; discriminate]|eauto]. }
  destruct (exec reInlineReply markers) as [im|] eqn:Ei.
  { assert (H : processMarkedLines lib lines markers = Throw TypeError).
    { apply processMarkedLines_inline_throws; [assumption|]. rewrite Ei. eauto. }
    rewrite H. split; [split; eauto|]. intros Hn. exfalso. apply Hn. eauto. }
  destruct (detector_returns lib lines markers HQ HE Ei) as [r Hr].
  rewrite Hr. split; [|eauto].
  split; [discriminate|]. intros [_ [? ?]]. discriminate.
Qed.

Lemma take_min {A} (l : list A) n : take (Nat.min n (length l)) l = take n l.
Proof.
  destruct (decide (n <= length l)).
  - by rewrite Nat.min_l.
  - rewrite Nat.min_r by lia. by rewrite !take_ge by lia.
Qed.

Lemma drop_min {A} (l : list A) n : drop (Nat.min n (length l)) l = drop n l.
Proof.
  destruct (decide (n <= length l)).
  - by rewrite Nat.min_l.
  - rewrite Nat.min_r by lia. by rewrite !drop_ge by lia.
Qed.

Lemma Int_inj a b : VNumber (Int a) = VNumber (Int b) -> a = b.
Proof. by intros [= ->]. Qed.

(** *** replace with replacements that are no longer than the matches *)

Lemma replaceLoop_length re s f :
  (forall from m rep, execFrom (source re) s from = Some m -> f m = Normal rep ->
     String.length rep <= String.length (matched m)) ->
  forall fuel lastIndex next acc out,
    next <= lastIndex -> next <= String.length s -> String.length acc <= next ->
    replaceLoop fuel re s f lastIndex next acc = Normal out ->
    String.length out <= String.length s.
Proof.
  intros Hf.
  assert (Hlast : forall next acc, next <= String.length s -> String.length acc <= next ->
            String.length (acc +:+ substringFrom s next) <= String.length s).
  { intros next acc Hn Ha. unfold substringFrom.
    rewrite length_append, length_substring by lia. lia. }
  induction fuel as [|fuel IH]; intros lastIndex next acc out Hnl Hn Ha H; simpl in H.
  - destruct (execFrom (source re) s lastIndex) as [m|] eqn:E.
    + apply bind_Normal in H as (rep & Hrep & H).
      pose proof (Hf _ _ _ E Hrep) as Hle.
      pose proof (execFrom_ok _ _ _ _ E) as Hok.
      pose proof (ok_index _ _ _ _ Hok). pose proof (ok_end _ _ _ _ Hok).
      assert (String.length (acc +:+ String.substring next (index m - next) s +:+ rep)
              <= index m + String.length (matched m)).
      { rewrite !length_append, length_substring by lia. lia. }
      destruct (global re); injection H as <-; apply Hlast; lia.
    + injection H as <-. by apply Hlast.
  - destruct (execFrom (source re) s lastIndex) as [m|] eqn:E.
    + apply bind_Normal in H as (rep & Hrep & H).
      pose proof (Hf _ _ _ E Hrep) as Hle.
      pose proof (execFrom_ok _ _ _ _ E) as Hok.
      pose proof (ok_index _ _ _ _ Hok). pose proof (ok_end _ _ _ _ Hok).
      assert (String.length (acc +:+ String.substring next (index m - next) s +:+ rep)
              <= index m + String.length (matched m)).
      { rewrite !length_append, length_substring by lia. lia. }
      destruct (global re).
      * eapply IH; [| | |exact H]; [|lia|assumption].
        destruct (bool_decide _); lia.
      * injection H as <-. apply Hlast; lia.
    + injection H as <-. by apply Hlast.
Qed.

Lemma restoration_length lib s restored :
  restorationShortens lib ->
  replace (NormalizedLink lib) s bracketed = Normal restored ->
  String.length restored <= String.length s.
Proof.
  intros Hs H. unfold replace in H.
  eapply (replaceLoop_length _ s bracketed); [| | | |exact H]; simpl; try lia.
  intros from m rep. apply Hs.
Qed.

Lemma execFrom_matchAt r input from m :
  execFrom r input from = Some m -> matchAt r input (index m) = Some m.
Proof.
  unfold execFrom. destruct (_ <? _); [discriminate|]. apply searchFrom_matchAt.
Qed.

(** An output of the pipeline is trimmed. *)
Lemma extractFromPlain_trimmed lib x y :
  extractFromPlain lib x = Normal y -> trim y = y.
Proof.
  unfold extractFromPlain. intros H.
  apply bind_Normal in H as (pre & _ & H).
  apply bind_Normal in H as (markers & _ & H).
  apply bind_Normal in H as (r & _ & H).
  unfold postProcess in H. apply bind_Normal in H as (restored & _ & [= <-]).
  apply trim_idem.
Qed.

End PipelineFacts.

(* ================================================================== *)
(** * The sample patterns                                               *)
(* ================================================================== *)

Module SampleFacts.
Import JS RegExp Methods Talon RegExpFacts JSFacts TalonFacts Adequacy Notions
       ClassifierFacts DetectorFacts PipelineFacts.
Local Open Scope nat_scope.

Lemma sample_restoration_shortens : restorationShortens Sample.library.
Proof.
  intros s from m rep Hm Hrep. apply execFrom_matchAt in Hm.
  unfold matchAt in Hm.
  destruct (matcher _ _ _ _) as [z|] eqn:E; [|discriminate].
  injection Hm as Hm. unfold bracketed in Hrep. injection Hrep as <-.
  assert (Hmt : matched m = between s (index m, endIndex z)) by (by rewrite <- Hm).
  assert (Hcp : captures m = map (option_map (between s)) (caps z)) by (by rewrite <- Hm).
  rewrite Hmt, Hcp. clear Hm Hmt Hcp.
  set (i := index m) in *. clearbody i.
  change (source (NormalizedLink Sample.library)) with Sample.NormalizedLink in E.
  change (ngroups Sample.NormalizedLink) with 1 in E.
  unfold Sample.NormalizedLink in E.
  set (target := Seq (Lit "http://") (Star (Class true (chars ">@")))) in E.
  clearbody target. cbn [Lit matcher endIndex caps] in E.
  destruct (String.get i s) as [a|] eqn:G1; [|discriminate].
  destruct (charMatches (Char "@") a); [|discriminate].
  cbn [endIndex caps] in E.
  destruct (String.get (S i) s) as [b|] eqn:G2; [|discriminate].
  destruct (charMatches (Char "@") b); [|discriminate].
  cbn [endIndex caps] in E.
  match type of E with
  | matcher ?r s ?x ?c = Some z =>
      destruct (matcher_sound s (S (S i)) 1 r x c z) as (y & Hy & Hle & Hc);
        [|exact E|]
  end.
  { repeat split; simpl; try lia.
    - apply get_Some_lt in G2. lia.
    - repeat constructor. }
  cbn beta in Hc. cbn [endIndex caps] in Hc, Hle.
  destruct (String.get (endIndex y) s) as [a'|] eqn:G3; [|discriminate].
  destruct (charMatches (Char "@") a'); [|discriminate].
  cbn [endIndex caps] in Hc.
  destruct (String.get (S (endIndex y)) s) as [b'|] eqn:G4; [|discriminate].
  destruct (charMatches (Char "@") b'); [|discriminate].
  injection Hc as <-. cbn [endIndex caps].
  destruct Hy as (_ & _ & Hlen & _).
  destruct (caps y) as [|c0 [|c1 cs]]; try discriminate Hlen.
  apply get_Some_lt in G4.
  cbn. unfold between. cbn [fst snd].
  rewrite !length_append, !length_substring by lia. simpl. lia.
Qed.

Lemma sample_opening input s e :
  spans input (Alt (Char "s") (AtLeast 2 (Seq (Char "m") (Star (Char "e"))))) s e ->
  String.get s input = Some "s"%char \/ String.get s input = Some "m"%char.
Proof.
  intros H. apply spans_Alt in H as [H|H].
  - left. by apply spans_Char in H as [_ H].
  - right. apply spans_Quant_S in H as (m & H & _).
    apply spans_Seq in H as (m' & H & _). by apply spans_Char in H as [_ H].
Qed.

Lemma sample_quotation_needs_marker : quotationNeedsMarker Sample.library.
Proof.
  intros markers Hun. split.
  - destruct (exec (Quotation Sample.library) markers) as [q|] eqn:E; [|reflexivity].
    exfalso. apply exec_matchAt in E.
    destruct (matchAt_spans _ _ _ _ E) as (e & H & _).
    apply spans_Seq in H as (a & H & _). apply spans_Group in H.
    apply spans_Seq in H as (b & H & _).
    destruct (Hun (index q)) as [Hs Hm].
    destruct (sample_opening _ _ _ H); contradiction.
  - destruct (exec (EmptyQuotation Sample.library) markers) as [q|] eqn:E; [|reflexivity].
    exfalso. apply exec_matchAt in E.
    destruct (matchAt_spans _ _ _ _ E) as (e & H & _).
    apply spans_Seq in H as (a & H & _). apply spans_Group in H.
    destruct (Hun (index q)) as [Hs Hm].
    destruct (sample_opening _ _ _ H); contradiction.
Qed.

End SampleFacts.

(* ================================================================== *)
(** * The claims of the specification                                  *)
(* ================================================================== *)

Module Claims.
Import JS RegExp Methods Talon RegExpFacts JSFacts TalonFacts Adequacy Notions
       ClassifierFacts DetectorFacts PipelineFacts SampleFacts.
Local Open Scope nat_scope.

(** ** The inline-reply guard *)

(** C1 (the code at the claim's own example): the claim has the detector
    return the three lines ["> quoted A"; "my reply"; "> quoted B"]
    unchanged when their markers show an inline reply.  The guard of the
    source reads [inlineReplyMatch[3]], the third group of a pattern that
    has two: the index is [undefined], [lines[undefined]] is [undefined],
    and calling [match] on it throws a TypeError, whatever the pattern
    library is. *)
Theorem inline_reply_throws_TypeError (lib : Library) :
  processMarkedLines lib ["> quoted A"; "my reply"; "> quoted B"] "mtm" = Throw TypeError.
Proof. reflexivity. Qed.

(** C2 (the code at a failing input): the claim has extraction complete
    normally on every body and content type.  On the body made of the lines
    "> quoted A", "my reply", "> quoted B" the plain-text pipeline throws
    the TypeError of the inline-reply guard, with the content type left out
    or given as text/plain; the detector throws it for every pattern
    library. *)
Theorem extraction_throws_on_inline_reply :
  extractFrom Sample.library ("> quoted A" +:+ LF +:+ "my reply" +:+ LF +:+ "> quoted B") None
    = Throw TypeError
  /\ extractFrom Sample.library ("> quoted A" +:+ LF +:+ "my reply" +:+ LF +:+ "> quoted B")
       (Some "text/plain") = Throw TypeError
  /\ forall lib, processMarkedLines lib ["> quoted A"; "my reply"; "> quoted B"] "mtm"
       = Throw TypeError.
Proof. split; [|split]; [vm_compute; reflexivity..|intros lib; reflexivity]. Qed.

(** ** The trailing-quote cut *)

(** C3 (the code at a failing input): the claim has the trailing-quote cut
    keep every line before the trailing text group.  The source passes
    [quotation[3]], the text that group 3 captured, where it means a line
    index: on the markers "tst" it is the string "t", which [slice] reads
    as 0.  No line survives, and [firstDeletedLine] is that string.  It is
    so whenever the heuristic is reached and its pattern matches
    ([trailing_cut_keeps_nothing]). *)
Theorem trailing_cut_deletes_every_line (lib : Library) :
  processMarkedLines lib ["new text"; "On Jan 1, Alice wrote:"; "old text"] "tst"
  = Normal {| lastMessageLines := [];
              wereLinesDeleted := true;
              firstDeletedLine := VString "t";
              lastDeletedLine := VNumber (Int 3) |}.
Proof. reflexivity. Qed.

(** The same message through the whole pipeline. *)
Example trailing_cut_whole_pipeline :
  markMessageLines Sample.library ["new text"; "On Jan 1, Alice wrote:"; "old text"]
    = Normal "tst"
  /\ extractFromPlain Sample.library
       ("new text" +:+ LF +:+ "On Jan 1, Alice wrote:" +:+ LF +:+ "old text")
     = Normal EmptyString.
Proof. split; vm_compute; reflexivity. Qed.

(** The example that the claim gives is a quote-prefixed block: its markers
    are "tsmm", the trailing-quote pattern does not match them and the
    bounded-block heuristic removes the three lines. *)
Example quoted_reply_below :
  markMessageLines Sample.library
    ["new text"; "On Jan 1, Alice wrote:"; "> old text"; "> more old text"] = Normal "tsmm"
  /\ exec reTrailingQuote "tsmm" = None
  /\ extractFromPlain Sample.library
       ("new text" +:+ LF +:+ "On Jan 1, Alice wrote:" +:+ LF +:+ "> old text" +:+ LF
          +:+ "> more old text")
     = Normal "new text".
Proof. repeat split; vm_compute; reflexivity. Qed.

(** ** The classifier *)

(** After a splitter match the scan index is moved by the arity of
    [splitLines], whatever the number of lines of the match. *)
Lemma markStep_splitter_advance lib lines index markers line splitterMatch :
  lines !! Z.to_nat index = Some line ->
  line <> EmptyString ->
  matchStart line (QuotePattern lib) = None ->
  matchStart line (Forward lib) = None ->
  isSplitter lib (join LF (slice lines (numberValue index)
                             (numberValue (index + SplitterMaxLines lib)))) = Some splitterMatch ->
  markStep lib lines index markers
  = (markSplitter (length (splitLines lib (matched splitterMatch))) (Z.to_nat index) markers,
     (index + Z.of_nat (splitLines_length lib))%Z).
Proof.
  intros Hl Hne Hq Hf Hs. unfold markStep. rewrite Hl; simpl.
  rewrite bool_decide_eq_false_2 by assumption.
  rewrite Hq, Hf.
  rewrite !bool_decide_eq_false_2 by (intros [? ?]; discriminate).
  rewrite Hs. f_equal. lia.
Qed.

(** C4 (the code at a failing input): the claim has the classifier move
    the scan index past the k lines of a splitter match.  The source adds
    [splitLines.length - 1], the arity of the function [splitLines], not
    the number of lines.  On the lines "On Jan 1,", "Alice wrote:",
    "> old" the splitter spans two lines: both are marked "s", the index
    goes from 0 to 1, the next turn classifies the second line again, as
    text, and the markers are "stm". *)
Theorem splitter_lines_are_reclassified :
  isSplitter Sample.library ("On Jan 1," +:+ LF +:+ "Alice wrote:" +:+ LF +:+ "> old")
    = Some {| index := 0;
              matched := "On Jan 1," +:+ LF +:+ "Alice wrote:";
              captures := [] |}
  /\ markStep Sample.library ["On Jan 1,"; "Alice wrote:"; "> old"] 0 (newArray 3)
     = ([Some "s"; Some "s"; None], 1%Z)
  /\ markStep Sample.library ["On Jan 1,"; "Alice wrote:"; "> old"] 1 [Some "s"; Some "s"; None]
     = ([Some "s"; Some "t"; None], 2%Z)
  /\ markMessageLines Sample.library ["On Jan 1,"; "Alice wrote:"; "> old"] = Normal "stm".
Proof. repeat split; vm_compute; reflexivity. Qed.

(** ** The normalization of spurious markers *)

(** C5 (the code at failing inputs): the claim has the later heuristics
    run on the normalized markers.  The source evaluates
    [markers.replace("m", "t")] and drops the string it returns.  The
    markers "mm" have no splitter and no three quote runs, and normalize to
    "tm"; the detector still works on "mm" and removes both lines, where on
    "tm" (or on "tt") it removes none.  The markers "mtm" normalize to
    "ttm", in which the inline-reply shape no longer occurs; the guard
    still finds it in "mtm" and throws, whatever the pattern library is. *)
Theorem normalized_markers_are_dropped :
  normalizedMarkers "mm" = "tm"
  /\ processMarkedLines Sample.library ["> a"; "> b"] "mm"
     = Normal {| lastMessageLines := [];
                 wereLinesDeleted := true;
                 firstDeletedLine := VNumber (Int 0);
                 lastDeletedLine := VNumber (Int 2) |}
  /\ processMarkedLines Sample.library ["> a"; "> b"] "tm" = Normal (untouched ["> a"; "> b"])
  /\ processMarkedLines Sample.library ["> a"; "> b"] "tt" = Normal (untouched ["> a"; "> b"])
  /\ normalizedMarkers "mtm" = "ttm"
  /\ exec reInlineReply "ttm" = None
  /\ forall lib lines, processMarkedLines lib lines "mtm" = Throw TypeError.
Proof.
  split; [vm_compute; reflexivity|]. split; [vm_compute; reflexivity|].
  split; [vm_compute; reflexivity|]. split; [vm_compute; reflexivity|].
  split; [vm_compute; reflexivity|]. split; [vm_compute; reflexivity|].
  intros lib lines. apply processMarkedLines_inline_throws; [reflexivity|].
  eexists. vm_compute. reflexivity.
Qed.

(** ** The preprocessor *)

(** C6 (the code at failing inputs): the claim has a link left as it is
    exactly when the character after the end of its line is '>'.  The
    source finds the line feed in the text from the link on, and reads the
    whole body at that relative position plus one.  A link on the only line
    of a body that begins with '>' is left as it is (no line feed, so
    position 0 is read); a link whose next line begins with '>' is
    replaced (position 13 of the body is read, inside the link); and a link
    at offset 2 followed by a line of text is left as it is (the position
    read is that of its own closing bracket). *)
Theorem link_guard_reads_a_relative_index :
  preprocess Sample.library "> see <http://a.com>" LF None
    = Normal "> see <http://a.com>"
  /\ preprocess Sample.library ("aaa <http://b.c>" +:+ LF +:+ ">q") LF None
     = Normal ("aaa @@http://b.c@@" +:+ LF +:+ ">q")
  /\ preprocess Sample.library (">" +:+ LF +:+ "<http://a.com>" +:+ LF +:+ "foo") LF None
     = Normal (">" +:+ LF +:+ "<http://a.com>" +:+ LF +:+ "foo").
Proof. repeat split; vm_compute; reflexivity. Qed.

(** ** The surviving lines *)

(** C7: for every pattern library, lines array and marker sequence, the
    lines that the detector returns are the original lines with one
    contiguous range [a, b) taken out (an empty range when nothing is
    removed): a prefix of the original lines followed by a suffix of them,
    in their original order. *)
Theorem surviving_lines_are_prefix_plus_suffix
    (lib : Library) (lines : list string) (markers : string) (r : QuotationResult) :
  processMarkedLines lib lines markers = Normal r ->
  exists a b, a <= b <= length lines /\
    lastMessageLines r = take a lines ++ drop b lines.
Proof.
  intros H. destruct (processMarkedLines_cases _ _ _ _ H)
    as [->|[(q & Hq & ->)|(re & q & g & _ & Hq & Hg & ->)]].
  - (* nothing is removed: the empty range at the start *)
    exists 0, 0. split; [lia|reflexivity].
  - (* the trailing-quote cut keeps a prefix, whatever the index it is given *)
    destruct (slice_from_zero lines (get q 3)) as (f & Hf & Hs).
    exists f, (length lines). split; [lia|].
    change (lastMessageLines (trailingCut lines q))
      with (slice lines (VNumber (Int 0)) (get q 3)).
    by rewrite Hs, drop_all, app_nil_r.
  - (* the bounded block: the group occurs in the match, so indexOf is not -1 *)
    exact (boundedBlock_lines re lines markers q g Hq Hg).
Qed.

(** C7 at a message whose quoted block is in the middle. *)
Lemma surviving_lines_witness :
  processMarkedLines Sample.library
    ["new text"; "On Jan 1, Alice wrote:"; "> old text"; "> more old text"; "bye"] "tsmmt"
  = Normal {| lastMessageLines := ["new text"; "bye"];
              wereLinesDeleted := true;
              firstDeletedLine := numberValue 1;
              lastDeletedLine := numberValue 4 |}
  /\ exists a b, a <= b <= 5 /\
       ["new text"; "bye"]
       = take a ["new text"; "On Jan 1, Alice wrote:"; "> old text"; "> more old text"; "bye"]
         ++ drop b ["new text"; "On Jan 1, Alice wrote:"; "> old text"; "> more old text"; "bye"].
Proof.
  split; [vm_compute; reflexivity|].
  apply (surviving_lines_are_prefix_plus_suffix Sample.library
           ["new text"; "On Jan 1, Alice wrote:"; "> old text"; "> more old text"; "bye"]
           "tsmmt"
           {| lastMessageLines := ["new text"; "bye"];
              wereLinesDeleted := true;
              firstDeletedLine := numberValue 1;
              lastDeletedLine := numberValue 4 |}).
  vm_compute; reflexivity.
Defined.

(** C10: for every pattern library, lines array and marker sequence, a
    result of the detector whose [wereLinesDeleted] is false is the initial
    record: [lastMessageLines] is the input lines and [firstDeletedLine]
    and [lastDeletedLine] are both -1. *)
Theorem no_deletion_means_initial_record
    (lib : Library) (lines : list string) (markers : string) (r : QuotationResult) :
  processMarkedLines lib lines markers = Normal r ->
  wereLinesDeleted r = false ->
  lastMessageLines r = lines /\
  firstDeletedLine r = VNumber (Int (-1)) /\
  lastDeletedLine r = VNumber (Int (-1)).
Proof.
  intros H Hd. destruct (processMarkedLines_cases _ _ _ _ H)
    as [->|[(q & _ & ->)|(re & q & g & _ & _ & _ & ->)]]; simpl in Hd; try discriminate.
  repeat split.
Qed.

(** C10 at a message with one quoted line, which no heuristic removes. *)
Lemma no_deletion_witness :
  processMarkedLines Sample.library ["hello"; "> quoted"; "bye"] "tmt"
    = Normal (untouched ["hello"; "> quoted"; "bye"])
  /\ lastMessageLines (untouched ["hello"; "> quoted"; "bye"]) = ["hello"; "> quoted"; "bye"]
  /\ firstDeletedLine (untouched ["hello"; "> quoted"; "bye"]) = VNumber (Int (-1))
  /\ lastDeletedLine (untouched ["hello"; "> quoted"; "bye"]) = VNumber (Int (-1)).
Proof.
  split; [vm_compute; reflexivity|].
  apply (no_deletion_means_initial_record Sample.library
           ["hello"; "> quoted"; "bye"] "tmt" (untouched ["hello"; "> quoted"; "bye"])).
  - vm_compute; reflexivity.
  - reflexivity.
Defined.

(** ** The length of the output *)

(** C8 as the claim states it, refuted: a body with no white space at
    either end whose extraction is one character longer.  The forwarded
    header keeps the detector from removing anything, and the preprocessor
    has put a delimiter before the "On ... wrote:" phrase that follows
    "hello " on its line. *)
Lemma extraction_can_lengthen :
  let body := "---- Forwarded message ----" +:+ LF +:+ "hello On Jan 1, Alice wrote:" in
  let out := "---- Forwarded message ----" +:+ LF +:+ "hello " +:+ LF
               +:+ "On Jan 1, Alice wrote:" in
  extractFromPlain Sample.library body = Normal out
  /\ trim body = body
  /\ String.length body < String.length out.
Proof. repeat split; vm_compute; reflexivity. Qed.

(** C8, amended: from the preprocessed body on, extraction only removes
    lines and never adds content.  Whenever the plain-text pipeline
    returns [out], the lines joined for the postprocessor are an
    order-preserving sub-list of the (bounded) lines of the preprocessed
    body, and [out] is their link-restored and trimmed join.  When the
    restored form of a normalized link is no longer than the normalized
    link, [out] is no longer than the join of the lines of the
    preprocessed body; it is then no longer than the preprocessed body
    itself when the line bound is not negative and splitting and joining
    does not lengthen that body.  What remains of the claim's bound
    against the raw input is the preprocessor, which puts a delimiter
    before an "On ... wrote:" phrase that follows text on its line. *)
Theorem extraction_only_removes_lines
    (lib : Library) (body out : string) :
  extractFromPlain lib body = Normal out ->
  let delimiter := findDelimiter lib body in
  exists pre survivors restored,
    let lines := slice (splitLines lib pre) (numberValue 0)
                   (numberValue (MaxLinesCount lib)) in
    preprocess lib body delimiter None = Normal pre
    /\ survivors `sublist_of` lines
    /\ String.length (join delimiter survivors) <= String.length (join delimiter lines)
    /\ replace (NormalizedLink lib) (join delimiter survivors) bracketed = Normal restored
    /\ out = trim restored
    /\ String.length out <= String.length restored
    /\ (restorationShortens lib ->
        String.length restored <= String.length (join delimiter survivors)
        /\ String.length out <= String.length (join delimiter lines)
        /\ ((0 <= MaxLinesCount lib)%Z ->
            String.length (join delimiter (splitLines lib pre)) <= String.length pre ->
            String.length out <= String.length pre)).
Proof.
  unfold extractFromPlain. intros H.
  apply bind_Normal in H as (pre & Hpre & H).
  apply bind_Normal in H as (markers & Hmarkers & H).
  apply bind_Normal in H as (r & Hr & H).
  unfold postProcess in H. apply bind_Normal in H as (restored & Hrest & [= <-]).
  destruct (survivors_cut _ _ _ _ Hr) as (a & b & Hab & Hcut).
  assert (Hsub : lastMessageLines r `sublist_of`
                   slice (splitLines lib pre) (numberValue 0) (numberValue (MaxLinesCount lib))).
  { rewrite Hcut. apply cut_sublist. lia. }
  pose proof (join_length_sublist (findDelimiter lib body) _ _ Hsub) as Hjoin.
  pose proof (trim_length restored) as Htrim.
  exists pre, (lastMessageLines r), restored. cbn zeta.
  split; [assumption|]. split; [assumption|].
  split; [assumption|].
  split; [assumption|]. split; [reflexivity|]. split; [assumption|].
  intros Hshort. pose proof (restoration_length _ _ _ Hshort Hrest) as Hre.
  split; [assumption|]. split; [lia|].
  intros Hmax Hsplit.
  assert (Htake : slice (splitLines lib pre) (numberValue 0) (numberValue (MaxLinesCount lib))
                  `sublist_of` splitLines lib pre).
  { unfold numberValue. rewrite slice_to by assumption. apply sublist_take. }
  pose proof (join_length_sublist (findDelimiter lib body) _ _ Htake). lia.
Qed.

(** C8, amended, at a reply above a quoted message: the sample link
    patterns meet the condition, and the output is no longer than the
    preprocessed body. *)
Lemma extraction_only_removes_lines_witness :
  let body := "see <http://a.com>  " +:+ LF +:+ "On Jan 1, Alice wrote:" +:+ LF +:+ "> old text" in
  extractFromPlain Sample.library body = Normal "see <http://a.com>"
  /\ restorationShortens Sample.library
  /\ exists pre survivors restored,
    let lines := slice (Sample.splitLines pre) (numberValue 0) (numberValue 1000) in
    preprocess Sample.library body LF None = Normal pre
    /\ survivors `sublist_of` lines
    /\ String.length (join LF survivors) <= String.length (join LF lines)
    /\ replace (NormalizedLink Sample.library) (join LF survivors) bracketed = Normal restored
    /\ "see <http://a.com>" = trim restored
    /\ String.length "see <http://a.com>" <= String.length restored
    /\ (restorationShortens Sample.library ->
        String.length restored <= String.length (join LF survivors)
        /\ String.length "see <http://a.com>" <= String.length (join LF lines)
        /\ ((0 <= 1000)%Z ->
            String.length (join LF (Sample.splitLines pre)) <= String.length pre ->
            String.length "see <http://a.com>" <= String.length pre)).
Proof.
  intros body.
  split; [vm_compute; reflexivity|].
  split; [exact sample_restoration_shortens|].
  apply (extraction_only_removes_lines Sample.library body "see <http://a.com>").
  vm_compute; reflexivity.
Defined.

(** ** Running extraction twice *)

(** C9 as the claim states it, refuted: the markers of [x] are "sms".  No
    pattern ends at the second splitter, so the first extraction removes
    the first splitter line alone; the second extraction finds the splitter
    line that is left and removes it. *)
Lemma extraction_is_not_idempotent :
  let x := "-----Original Message-----" +:+ LF +:+ "> a" +:+ LF
             +:+ "-----Original Message-----" in
  let y := "> a" +:+ LF +:+ "-----Original Message-----" in
  extractFromPlain Sample.library x = Normal y
  /\ extractFromPlain Sample.library y = Normal "> a"
  /\ y <> "> a".
Proof. repeat split; try (vm_compute; reflexivity). discriminate. Qed.

(** Trimming is a second way: the first line of this body begins with a
    blank and is text, nothing is removed, and the trimmed output begins
    with a splitter line. *)
Example trimming_exposes_a_splitter :
  let x := " -----Original Message-----" +:+ LF +:+ "> foo" in
  let y := "-----Original Message-----" +:+ LF +:+ "> foo" in
  extractFromPlain Sample.library x = Normal y
  /\ extractFromPlain Sample.library y = Normal EmptyString.
Proof. split; vm_compute; reflexivity. Qed.

(** A third way needs no quotation at all: a line of the first output ends
    with a carriage return, which the join puts before a line feed; the
    second run reads the two as one line break and the carriage return is
    gone.  No line of the output is a splitter or quote-prefixed, but its
    lines do not join back to it. *)
Example rejoining_changes_a_line_end :
  let x := "u" +:+ LF +:+ "v" +:+ CR +:+ CR +:+ LF +:+ "w" in
  let y := "u" +:+ LF +:+ "v" +:+ CR +:+ LF +:+ "w" in
  extractFromPlain Sample.library x = Normal y
  /\ extractFromPlain Sample.library y = Normal ("u" +:+ LF +:+ "v" +:+ LF +:+ "w")
  /\ (forall k, splitterAt Sample.library (Sample.splitLines y) k = None)
  /\ Forall (fun line => lineMarker Sample.library line <> "m") (Sample.splitLines y)
  /\ join LF (Sample.splitLines y) <> y.
Proof.
  intros x y.
  split; [vm_compute; reflexivity|]. split; [vm_compute; reflexivity|].
  split; [|split].
  - intros k. do 3 (destruct k as [|k]; [vm_compute; reflexivity|]). vm_compute; reflexivity.
  - repeat constructor; vm_compute; discriminate.
  - vm_compute. discriminate.
Qed.

(** C9, amended: extraction is idempotent on an output in which no line is
    left to strip and nothing is left to normalize.  Let [y] be an output
    of the plain-text pipeline, and let the quotation patterns of the
    library match only markers that hold a splitter or a quote marker.  If
    the classifier finds no splitter among the lines of the preprocessed
    [y] and none of them is quote-prefixed, the second run removes no
    line: its result is the postprocessed join of all these lines.  If
    moreover these lines join back to [y] (preprocessing, splitting and
    joining leave [y] as it is, which [rejoining_changes_a_line_end] shows
    is needed) and no normalized link occurs in [y], the second run
    returns [y]. *)
Theorem extraction_idempotent_without_quotation
    (lib : Library) (x y pre : string) :
  quotationNeedsMarker lib ->
  extractFromPlain lib x = Normal y ->
  let delimiter := findDelimiter lib y in
  preprocess lib y delimiter None = Normal pre ->
  let lines := slice (splitLines lib pre) (numberValue 0)
                 (numberValue (MaxLinesCount lib)) in
  (forall k, splitterAt lib lines k = None) ->
  Forall (fun line => lineMarker lib line <> "m") lines ->
  extractFromPlain lib y = postProcess lib (join delimiter lines)
  /\ (join delimiter lines = y ->
      exec (source (NormalizedLink lib)) y = None ->
      extractFromPlain lib y = Normal y).
Proof.
  intros Hlib Hx delimiter Hpre lines Hsplit Hquote.
  assert (H : extractFromPlain lib y = postProcess lib (join delimiter lines)).
  { unfold extractFromPlain. fold delimiter. rewrite Hpre. cbn [bind]. fold lines.
    rewrite (markMessageLines_map lib lines Hsplit). cbn [bind].
    rewrite (detector_keeps_unmarked lib lines _ Hlib (lineMarkers_unmarked lib lines Hquote)).
    reflexivity. }
  split; [exact H|].
  intros Hjoin Hlink. rewrite H, Hjoin. unfold postProcess.
  rewrite (replace_no_match _ _ _ Hlink). cbn [bind].
  by rewrite (extractFromPlain_trimmed lib x y Hx).
Qed.

(** C9, amended, at a reply above an attribution line and a quoted line:
    the first run removes the two, and the second run returns what the
    first has left. *)
Lemma extraction_idempotent_witness :
  let x := "hello" +:+ LF +:+ LF +:+ "bye" +:+ LF +:+ "On Jan 1, Alice wrote:" +:+ LF +:+ "> old" in
  let y := "hello" +:+ LF +:+ LF +:+ "bye" in
  quotationNeedsMarker Sample.library
  /\ extractFromPlain Sample.library x = Normal y
  /\ extractFromPlain Sample.library y
     = postProcess Sample.library
         (join LF (slice (Sample.splitLines y) (numberValue 0) (numberValue 1000)))
  /\ extractFromPlain Sample.library y = Normal y.
Proof.
  intros x y.
  assert (Hx : extractFromPlain Sample.library x = Normal y) by (vm_compute; reflexivity).
  split; [exact sample_quotation_needs_marker|]. split; [exact Hx|].
  destruct (extraction_idempotent_without_quotation Sample.library x y y
              sample_quotation_needs_marker Hx) as [Hkeep Hsame].
  - vm_compute; reflexivity.
  - intros k. do 3 (destruct k as [|k]; [vm_compute; reflexivity|]). vm_compute; reflexivity.
  - repeat constructor; vm_compute; discriminate.
  - split; [exact Hkeep|].
    apply Hsame; vm_compute; reflexivity.
Defined.

End Claims.

(* ================================================================== *)
(** * Further properties of the functions of Quotations.ts              *)
(* ================================================================== *)

Module Coverage.
Import JS RegExp Methods Talon RegExpFacts JSFacts TalonFacts Adequacy Notions
       ClassifierFacts DetectorFacts PipelineFacts.
Local Open Scope nat_scope.

(** ** markMessageLines *)

(** X1: on lines among which the classifier finds no splitter, the marker
    string is the line-by-line classification: one marker for every line,
    in order, "e" for an empty line, "m" for a quote-prefixed line, "f" for
    a forwarded-message header and "t" for any other. *)
Theorem lines_without_splitter_are_marked_one_by_one
    (lib : Library) (lines : list string) :
  (forall k, splitterAt lib lines k = None) ->
  markMessageLines lib lines
  = Normal (String.concat EmptyString (lineMarker lib <$> lines)).
Proof.
  intros Hno. unfold markMessageLines, newArray.
  pose proof (markLoop_map lib lines (length lines) 0 Hno ltac:(lia) ltac:(lia)) as H.
  rewrite take_0, Nat.sub_0_r in H. change (Z.of_nat 0) with 0%Z in H.
  change ((Some ∘ lineMarker lib <$> []) ++ replicate (length lines) None)
    with (replicate (length lines) (@None string)) in H.
  rewrite H. simpl.
  by rewrite list_fmap_compose, joinMarkers_Some.
Qed.

(** X1 at four lines, one of each kind. *)
Lemma lines_without_splitter_witness :
  markMessageLines Sample.library ["hello"; EmptyString; "> quoted"; "-- Forwarded message --"]
  = Normal (String.concat EmptyString
              (lineMarker Sample.library
                 <$> ["hello"; EmptyString; "> quoted"; "-- Forwarded message --"]))
  /\ String.concat EmptyString
       (lineMarker Sample.library
          <$> ["hello"; EmptyString; "> quoted"; "-- Forwarded message --"]) = "temf".
Proof.
  split; [|vm_compute; reflexivity].
  apply (lines_without_splitter_are_marked_one_by_one Sample.library).
  intros k. do 4 (destruct k as [|k]; [vm_compute; reflexivity|]). reflexivity.
Defined.

(** X2: whenever the classifier returns, every character of the marker
    string is one of the five markers e, m, f, s, t. *)
Theorem markers_are_made_of_five_letters
    (lib : Library) (lines : list string) (markers : string) :
  markMessageLines lib lines = Normal markers ->
  Forall (fun c => c ∈ markerAlphabet) (String.list_ascii_of_string markers).
Proof.
  unfold markMessageLines. intros H.
  apply bind_Normal in H as (ms & Hms & [= <-]).
  apply joinMarkers_alphabet. eapply (markLoop_entries lib lines); [|exact Hms].
  apply Forall_replicate. intros v Hv. discriminate.
Qed.

(** X2 at a splitter of two lines above a quoted line. *)
Lemma markers_are_made_of_five_letters_witness :
  markMessageLines Sample.library ["On Jan 1,"; "Alice wrote:"; "> old"] = Normal "stm"
  /\ Forall (fun c => c ∈ markerAlphabet) (String.list_ascii_of_string "stm").
Proof.
  assert (H : markMessageLines Sample.library ["On Jan 1,"; "Alice wrote:"; "> old"]
              = Normal "stm") by (vm_compute; reflexivity).
  split; [exact H|].
  exact (markers_are_made_of_five_letters Sample.library _ _ H).
Defined.

(** X3: when [splitLines] is declared with one parameter and every splitter
    that the classifier finds has one line or more and ends within the
    lines, every line has its own turn of the loop and the turn decides
    its marker: "s" where a splitter is found at the line, the marker of
    the line elsewhere.  Of the lines of a splitter only the first keeps
    its "s" in any case: the others are classified again.  There is one
    marker for every line. *)
Theorem every_line_is_classified_at_its_turn (lib : Library) (lines : list string) :
  splitLines_length lib = 1 ->
  (forall i m, splitterAt lib lines i = Some m ->
     1 <= length (splitLines lib (matched m))
     /\ i + length (splitLines lib (matched m)) <= length lines) ->
  markMessageLines lib lines
  = Normal (String.concat EmptyString (classified lib lines))
  /\ String.length (String.concat EmptyString (classified lib lines)) = length lines.
Proof.
  intros Har Hfit. split.
  - unfold markMessageLines.
    pose proof (markLoop_classified lib lines Har Hfit (length lines) 0
                  (newArray (length lines))) as H.
    change (Z.of_nat 0) with 0%Z in H. rewrite H.
    + simpl. by rewrite joinMarkers_Some.
    + lia.
    + lia.
    + apply length_replicate.
    + intros k Hk. lia.
  - rewrite concat_length_ones; [unfold classified; apply length_imap|].
    apply Forall_lookup_2. intros i s Hs. unfold classified in Hs.
    rewrite list_lookup_imap in Hs.
    destruct (lines !! i) as [line|]; [|discriminate]. simpl in Hs. injection Hs as <-.
    destruct (splitterAt lib lines i); [reflexivity|].
    unfold lineMarker. repeat (destruct (bool_decide _); [reflexivity|]). reflexivity.
Qed.

(** X3 at a splitter of two lines above a quoted line: the second line of
    the splitter ends as text. *)
Lemma every_line_is_classified_witness :
  classified Sample.library ["On Jan 1,"; "Alice wrote:"; "> old"] = ["s"; "t"; "m"]
  /\ markMessageLines Sample.library ["On Jan 1,"; "Alice wrote:"; "> old"]
     = Normal (String.concat EmptyString
                 (classified Sample.library ["On Jan 1,"; "Alice wrote:"; "> old"]))
  /\ String.length (String.concat EmptyString
                      (classified Sample.library ["On Jan 1,"; "Alice wrote:"; "> old"]))
     = 3.
Proof.
  split; [vm_compute; reflexivity|].
  apply (every_line_is_classified_at_its_turn Sample.library
           ["On Jan 1,"; "Alice wrote:"; "> old"]).
  - reflexivity.
  - intros i m H.
    destruct i as [|i].
    { vm_compute in H. injection H as <-. vm_compute. lia. }
    do 2 (destruct i as [|i]; [vm_compute in H; discriminate H|]).
    vm_compute in H. discriminate H.
Defined.

(** X4: the classifier never throws, and it runs for ever exactly when
    [splitLines] is declared without a parameter and a splitter is found
    at some line: the scan index is then advanced by [splitLines.length],
    which is 0. *)
Theorem classifier_runs_for_ever_iff (lib : Library) (lines : list string) :
  (forall e, markMessageLines lib lines <> Throw e)
  /\ (markMessageLines lib lines = Diverge
      <-> splitLines_length lib = 0
          /\ exists i, is_Some (splitterAt lib lines i)).
Proof.
  split.
  { intros e. unfold markMessageLines.
    pose proof (markLoop_never_throws lib lines e (length lines) 0%Z
                  (newArray (length lines))) as H.
    destruct (markLoop _ _ _ _ _); simpl; congruence. }
  split.
  - intros Hd. destruct (splitLines_length lib) as [|n] eqn:Har.
    + split; [reflexivity|].
      destruct (markLoop_arity0 lib lines (length lines) Har 0 (newArray (length lines)))
        as [[_ (k & _ & Hk)]|[[ms Hms] _]]; [lia|eauto|].
      unfold markMessageLines in Hd. change (Z.of_nat 0) with 0%Z in Hms.
      rewrite Hms in Hd. discriminate.
    + destruct (markMessageLines_halts lib ltac:(lia) lines) as [markers Hm].
      congruence.
  - intros [Har [i Hi]].
    destruct (markLoop_arity0 lib lines (length lines) Har 0 (newArray (length lines)))
      as [[Hd _]|[_ Hnone]]; [lia| |].
    + unfold markMessageLines. change (Z.of_nat 0) with 0%Z in Hd. by rewrite Hd.
    + rewrite (Hnone i) in Hi by lia. by destruct Hi.
Qed.

(** X5: the loop that marks the lines of a splitter writes "s" at the [n]
    positions from [index] on and leaves every other marker as it was, when
    these positions are within the array; when they are not, the array
    grows to hold them. *)
Theorem splitter_loop_writes_s
    (n index : nat) (markers : list (option string)) :
  length (markSplitter n index markers)
  = (if bool_decide (n = 0) then length markers else Nat.max (length markers) (index + n))
  /\ (index + n <= length markers ->
      forall k, markSplitter n index markers !! k
                = if bool_decide (index <= k < index + n) then Some (Some "s")
                  else markers !! k).
Proof.
  split; [|intros H k; by apply markSplitter_lookup].
  induction n as [|n IH]; [reflexivity|].
  rewrite bool_decide_eq_false_2 by lia. simpl. unfold arraySet.
  destruct (index + n <? length (markSplitter n index markers)) eqn:E.
  - apply Nat.ltb_lt in E. rewrite length_insert. rewrite IH in *.
    destruct (bool_decide (n = 0)); lia.
  - apply Nat.ltb_ge in E. rewrite !length_app, length_replicate. simpl.
    rewrite IH in *. destruct (bool_decide (n = 0)); lia.
Qed.

(** X5 at a splitter of two lines found at the last of three lines. *)
Lemma splitter_loop_writes_s_witness :
  length (markSplitter 2 2 (newArray 3)) = 4
  /\ forall k, markSplitter 2 0 (newArray 3) !! k
               = if bool_decide (0 <= k < 0 + 2) then Some (Some "s")
                 else newArray 3 !! k.
Proof.
  split.
  - exact (proj1 (splitter_loop_writes_s 2 2 (newArray 3))).
  - apply (proj2 (splitter_loop_writes_s 2 0 (newArray 3))). simpl. lia.
Defined.

(** ** processMarkedLines *)

(** X6: when group 1 of the two quotation patterns is set in every match,
    the detector throws exactly when no forwarded header leads the markers
    and the inline-reply shape occurs in them, and what it throws is a
    TypeError; on all other markers it returns a record. *)
Theorem detector_throws_exactly_on_inline_reply
    (lib : Library) (lines : list string) (markers : string) :
  groupOneSet (Quotation lib) -> groupOneSet (EmptyQuotation lib) ->
  (processMarkedLines lib lines markers = Throw TypeError <-> inlineReplyReached markers)
  /\ (~ inlineReplyReached markers ->
      exists r, processMarkedLines lib lines markers = Normal r).
Proof. apply detector_throws_iff. Qed.

(** X6 at the sample patterns. *)
Lemma detector_throws_witness :
  groupOneSet Sample.Quotation /\ groupOneSet Sample.EmptyQuotation
  /\ (processMarkedLines Sample.library ["> a"; "b"; "> c"] "mtm" = Throw TypeError
      <-> inlineReplyReached "mtm").
Proof.
  assert (HQ : groupOneSet Sample.Quotation) by (split; vm_compute; repeat constructor;
    rewrite ?elem_of_cons, ?elem_of_nil; tauto).
  assert (HE : groupOneSet Sample.EmptyQuotation) by (split; vm_compute; repeat constructor;
    rewrite ?elem_of_cons, ?elem_of_nil; tauto).
  split; [exact HQ|]. split; [exact HE|].
  exact (proj1 (detector_throws_exactly_on_inline_reply Sample.library
                  ["> a"; "b"; "> c"] "mtm" HQ HE)).
Defined.

(** X7: the test for a leading forwarded header succeeds exactly when an
    "f" comes in the markers after text and empty markers only; the
    detector then returns the initial record and the message is left as it
    is, whatever follows the "f". *)
Theorem leading_forward_keeps_the_message
    (lib : Library) (lines : list string) (markers : string) :
  (is_Some (matchStart markers reLeadingForward) <-> forwardLeads markers)
  /\ (forwardLeads markers ->
      processMarkedLines lib lines markers = Normal (untouched lines)).
Proof.
  assert (H : forwardLeads markers -> is_Some (matchStart markers reLeadingForward)).
  { intros (j & Hbefore & Hf). eapply leadingForward_matches; eauto. }
  split; [split; [apply leadingForward_shape|exact H]|].
  intros Hl. unfold processMarkedLines.
  rewrite bool_decide_eq_true_2 by auto. reflexivity.
Qed.

(** X7 at a forwarded header above an inline reply. *)
Lemma leading_forward_witness :
  forwardLeads "tefmtm"
  /\ processMarkedLines Sample.library
       ["hi"; EmptyString; "-- Forwarded message --"; "> a"; "b"; "> c"] "tefmtm"
     = Normal (untouched ["hi"; EmptyString; "-- Forwarded message --"; "> a"; "b"; "> c"]).
Proof.
  assert (H : forwardLeads "tefmtm").
  { exists 2. split; [|reflexivity].
    intros k Hk. destruct k as [|[|k]]; [left; reflexivity|right; reflexivity|lia]. }
  split; [exact H|].
  exact (proj2 (leading_forward_keeps_the_message Sample.library _ "tefmtm") H).
Defined.

(** X8: whenever the trailing-quote heuristic is reached and its pattern
    matches, no line is kept: the text of group 3, "t" or "f", is given to
    [slice] as the end index and reported as [firstDeletedLine], and
    [lastDeletedLine] is the number of lines. *)
Theorem trailing_cut_keeps_no_line
    (lib : Library) (lines : list string) (markers : string) :
  matchStart markers reLeadingForward = None ->
  exec reInlineReply markers = None ->
  is_Some (exec reTrailingQuote markers) ->
  exists c, (c = "t" \/ c = "f") /\
    processMarkedLines lib lines markers
    = Normal {| lastMessageLines := [];
                wereLinesDeleted := true;
                firstDeletedLine := VString c;
                lastDeletedLine := numberValue (Z.of_nat (length lines)) |}.
Proof. apply trailing_cut_keeps_nothing. Qed.

(** X8 at a splitter followed by a forwarded header. *)
Lemma trailing_cut_witness :
  exists c, (c = "t" \/ c = "f") /\
    processMarkedLines Sample.library ["a"; "On Jan 1, Alice wrote:"; "-- Forwarded message --"]
      "tsf"
    = Normal {| lastMessageLines := [];
                wereLinesDeleted := true;
                firstDeletedLine := VString c;
                lastDeletedLine := numberValue 3 |}.
Proof.
  apply (trailing_cut_keeps_no_line Sample.library
           ["a"; "On Jan 1, Alice wrote:"; "-- Forwarded message --"] "tsf").
  - vm_compute; reflexivity.
  - vm_compute; reflexivity.
  - vm_compute. eexists. reflexivity.
Defined.

(** X9: when the detector reports a numeric range [first, last) of deleted
    lines, the range lies within the markers and the lines it keeps are
    the lines before [first] followed by the lines from [last] on. *)
Theorem reported_range_is_the_removed_range
    (lib : Library) (lines : list string) (markers : string)
    (r : QuotationResult) (first last : Z) :
  processMarkedLines lib lines markers = Normal r ->
  wereLinesDeleted r = true ->
  firstDeletedLine r = VNumber (Int first) ->
  lastDeletedLine r = VNumber (Int last) ->
  (0 <= first <= last)%Z /\ (last <= Z.of_nat (String.length markers))%Z
  /\ lastMessageLines r = take (Z.to_nat first) lines ++ drop (Z.to_nat last) lines.
Proof.
  intros H Hd Hfirst Hlast.
  destruct (processMarkedLines_cases _ _ _ _ H)
    as [->|[(q & Hq & ->)|(re & q & g & _ & Hq & Hg & ->)]].
  - discriminate Hd.
  - change (firstDeletedLine (trailingCut lines q)) with (get q 3) in Hfirst.
    destruct (trailingQuote_group3 _ _ Hq) as [E|E];
      rewrite E in Hfirst; discriminate Hfirst.
  - unfold boundedBlock in *. cbn [firstDeletedLine lastDeletedLine lastMessageLines] in *.
    unfold numberValue in *.
    apply Int_inj in Hfirst. apply Int_inj in Hlast.
    pose proof (exec_ok _ _ _ Hq) as Hok.
    destruct (ok_within _ _ _ _ Hok _ _ Hg) as [off Hoff].
    destruct (index_occurrence _ _ _ Hoff) as [p Hp].
    pose proof (index_fits _ _ _ Hp) as Hfit.
    pose proof (ok_end _ _ _ _ Hok) as Hend.
    unfold indexOf in *. rewrite Hp in *.
    assert (H0 : (0 <= first)%Z) by lia.
    assert (H1 : (0 <= last)%Z) by lia.
    split; [lia|]. split; [lia|].
    subst first last.
    rewrite slice_to, slice_to_end by assumption.
    by rewrite take_min, drop_min.
Qed.

(** X9 at a message whose quoted block is in the middle. *)
Lemma reported_range_witness :
  let lines := ["new text"; "On Jan 1, Alice wrote:"; "> old text"; "> more old text"; "bye"] in
  let r := {| lastMessageLines := ["new text"; "bye"];
              wereLinesDeleted := true;
              firstDeletedLine := numberValue 1;
              lastDeletedLine := numberValue 4 |} in
  processMarkedLines Sample.library lines "tsmmt" = Normal r
  /\ (0 <= 1 <= 4)%Z /\ (4 <= Z.of_nat (String.length "tsmmt"))%Z
  /\ lastMessageLines r = take (Z.to_nat 1) lines ++ drop (Z.to_nat 4) lines.
Proof.
  intros lines r.
  assert (H : processMarkedLines Sample.library lines "tsmmt" = Normal r)
    by (vm_compute; reflexivity).
  split; [exact H|].
  apply (reported_range_is_the_removed_range Sample.library lines "tsmmt" r 1 4 H);
    reflexivity.
Defined.

(** X10: what the detector decides (whether it throws, whether lines are
    deleted, and the range it reports) depends on the markers, the two
    quotation patterns and the number of lines only: the text of the lines
    and the other patterns of the library play no part. *)
Theorem decision_depends_on_markers_only
    (lib lib' : Library) (lines lines' : list string) (markers : string) :
  Quotation lib = Quotation lib' ->
  EmptyQuotation lib = EmptyQuotation lib' ->
  length lines = length lines' ->
  verdict (processMarkedLines lib lines markers)
  = verdict (processMarkedLines lib' lines' markers).
Proof.
  intros HQ HE Hlen.
  destruct (exec reInlineReply markers) as [im|] eqn:Ei.
  { unfold processMarkedLines.
    destruct (bool_decide _); [reflexivity|].
    rewrite !inlineReplyGuard_throws by eauto. reflexivity. }
  unfold processMarkedLines, inlineReplyGuard. rewrite Ei, HQ, HE, Hlen.
  destruct (bool_decide _); [reflexivity|].
  destruct (exec reTrailingQuote markers); [reflexivity|].
  destruct (match exec (Quotation lib') markers with
            | Some q => Some q
            | None => exec (EmptyQuotation lib') markers
            end) as [q|]; [|reflexivity].
  destruct (get q 1); reflexivity.
Qed.

(** X10 at two messages of five lines with the same markers. *)
Lemma decision_depends_on_markers_only_witness :
  verdict (processMarkedLines Sample.library
             ["new text"; "On Jan 1, Alice wrote:"; "> old text"; "> more old text"; "bye"]
             "tsmmt")
  = verdict (processMarkedLines Sample.library ["a"; "b"; "c"; "d"; "e"] "tsmmt").
Proof.
  apply (decision_depends_on_markers_only Sample.library Sample.library); reflexivity.
Defined.

(** X11: when group 1 of the two quotation patterns is set in every match,
    the detector can only throw a TypeError, and only on markers in which a
    text marker stands somewhere between two quote markers. *)
Theorem detector_throws_only_between_quote_markers
    (lib : Library) (lines : list string) (markers : string) (e : Error) :
  groupOneSet (Quotation lib) -> groupOneSet (EmptyQuotation lib) ->
  processMarkedLines lib lines markers = Throw e ->
  e = TypeError
  /\ exists i p j, i < p < j
       /\ String.get i markers = Some "m"%char
       /\ String.get p markers = Some "t"%char
       /\ String.get j markers = Some "m"%char.
Proof.
  intros HQ HE H.
  destruct (exec reInlineReply markers) as [q|] eqn:Eq.
  - split; [by destruct e|]. eapply inlineReply_shape; eauto.
  - destruct (detector_returns lib lines markers HQ HE Eq) as [r Hr]. congruence.
Qed.

(** X11 at a reply between two quoted lines. *)
Lemma detector_throws_only_witness :
  processMarkedLines Sample.library ["> a"; "b"; "> c"] "mtm" = Throw TypeError
  /\ TypeError = TypeError
  /\ exists i p j, i < p < j
       /\ String.get i "mtm" = Some "m"%char
       /\ String.get p "mtm" = Some "t"%char
       /\ String.get j "mtm" = Some "m"%char.
Proof.
  assert (H : processMarkedLines Sample.library ["> a"; "b"; "> c"] "mtm" = Throw TypeError)
    by reflexivity.
  split; [exact H|].
  apply (detector_throws_only_between_quote_markers Sample.library ["> a"; "b"; "> c"] "mtm").
  - split; vm_compute; repeat constructor; rewrite ?elem_of_cons, ?elem_of_nil; tauto.
  - split; vm_compute; repeat constructor; rewrite ?elem_of_cons, ?elem_of_nil; tauto.
  - exact H.
Defined.

(** X12: the detector reports a text instead of a line number as
    [firstDeletedLine] only from the trailing-quote cut: the markers then
    hold an "s" with a "t" or an "f" after it, and no line is kept. *)
Theorem text_as_first_deleted_line
    (lib : Library) (lines : list string) (markers : string)
    (r : QuotationResult) (c : string) :
  processMarkedLines lib lines markers = Normal r ->
  firstDeletedLine r = VString c ->
  lastMessageLines r = []
  /\ lastDeletedLine r = numberValue (Z.of_nat (length lines))
  /\ exists i j, i < j
       /\ String.get i markers = Some "s"%char
       /\ (String.get j markers = Some "t"%char \/ String.get j markers = Some "f"%char).
Proof.
  intros H Hc.
  destruct (processMarkedLines_cases _ _ _ _ H)
    as [->|[(q & Hq & ->)|(re & q & g & _ & _ & _ & ->)]]; try discriminate Hc.
  split; [|split; [reflexivity|by eapply trailingQuote_shape]].
  change (lastMessageLines (trailingCut lines q))
    with (slice lines (numberValue 0) (get q 3)).
  destruct (trailingQuote_group3 _ _ Hq) as [->| ->]; reflexivity.
Qed.

(** X12 at a reply above an attribution line and old text. *)
Lemma text_as_first_deleted_line_witness :
  let lines := ["new text"; "On Jan 1, Alice wrote:"; "old text"] in
  let r := {| lastMessageLines := [];
              wereLinesDeleted := true;
              firstDeletedLine := VString "t";
              lastDeletedLine := numberValue 3 |} in
  processMarkedLines Sample.library lines "tst" = Normal r
  /\ lastMessageLines r = []
  /\ lastDeletedLine r = numberValue (Z.of_nat (length lines))
  /\ exists i j, i < j
       /\ String.get i "tst" = Some "s"%char
       /\ (String.get j "tst" = Some "t"%char \/ String.get j "tst" = Some "f"%char).
Proof.
  intros lines r.
  assert (H : processMarkedLines Sample.library lines "tst" = Normal r) by reflexivity.
  split; [exact H|].
  exact (text_as_first_deleted_line Sample.library lines "tst" r "t" H eq_refl).
Defined.

(** ** isSplitter *)

(** X13: a splitter that [isSplitter] returns is a match at position 0 of
    the text, so its matched text is a prefix of the text; it is the match
    of the first template, in the order of the list, that matches there. *)
Theorem splitter_is_the_first_template_match
    (lib : Library) (src : string) (m : MatchResult) :
  isSplitter lib src = Some m ->
  index m = 0
  /\ String.prefix (matched m) src = true
  /\ exists before pattern after,
       SplitterPatterns lib = before ++ pattern :: after
       /\ Forall (fun p => matchStart src p = None) before
       /\ matchStart src pattern = Some m.
Proof.
  unfold isSplitter. generalize (SplitterPatterns lib) as patterns.
  induction patterns as [|pattern rest IH]; simpl; [discriminate|].
  destruct (matchStart src pattern) as [m'|] eqn:E.
  - intros [= ->]. unfold matchStart in E.
    destruct (exec pattern src) as [x|] eqn:Ex; [|discriminate].
    destruct (bool_decide (index x = 0)) eqn:Ei; [|discriminate].
    injection E as ->. apply bool_decide_eq_true_1 in Ei.
    split; [assumption|]. split.
    + rewrite (ok_matched _ _ _ _ (exec_ok _ _ _ Ex)), Ei. apply substring_prefix.
    + exists [], pattern, rest. split; [reflexivity|]. split; [constructor|].
      unfold matchStart. rewrite Ex. by rewrite bool_decide_eq_true_2.
  - intros H. destruct (IH H) as (Hi & Hp & before & p & after & -> & Hb & Hm).
    split; [assumption|]. split; [assumption|].
    exists (pattern :: before), p, after. split; [reflexivity|].
    split; [by constructor|assumption].
Qed.

(** X13 at an attribution over two lines, found by the first template. *)
Lemma splitter_witness :
  index {| index := 0; matched := "On Jan 1," +:+ LF +:+ "Alice wrote:"; captures := [] |} = 0
  /\ String.prefix
       (matched {| index := 0; matched := "On Jan 1," +:+ LF +:+ "Alice wrote:";
                   captures := [] |})
       ("On Jan 1," +:+ LF +:+ "Alice wrote:" +:+ LF +:+ "> old") = true
  /\ exists before pattern after,
       SplitterPatterns Sample.library = before ++ pattern :: after
       /\ Forall (fun p => matchStart ("On Jan 1," +:+ LF +:+ "Alice wrote:" +:+ LF +:+ "> old") p
                           = None) before
       /\ matchStart ("On Jan 1," +:+ LF +:+ "Alice wrote:" +:+ LF +:+ "> old") pattern
          = Some {| index := 0; matched := "On Jan 1," +:+ LF +:+ "Alice wrote:";
                    captures := [] |}.
Proof.
  apply (splitter_is_the_first_template_match Sample.library).
  vm_compute; reflexivity.
Defined.

(** ** preprocess *)

(** X14: with a link pattern of one group (the shape its replacer is
    written for), the preprocessor returns a body for every message,
    delimiter and content type. *)
Theorem preprocess_returns_with_one_link_group
    (lib : Library) (body delimiter : string) (contentType : option string) :
  ngroups (source (Link lib)) = 1 ->
  exists pre, preprocess lib body delimiter contentType = Normal pre.
Proof. apply preprocess_returns. Qed.

(** X14 at the sample link pattern. *)
Lemma preprocess_returns_witness :
  exists pre, preprocess Sample.library ("see <http://a.com>" +:+ LF +:+ "bye") LF None
              = Normal pre.
Proof.
  apply (preprocess_returns_with_one_link_group Sample.library). reflexivity.
Defined.

(** X15: a body in which neither the link pattern nor the
    "On ... wrote:" pattern occurs is returned as it is. *)
Theorem preprocess_keeps_a_body_without_occurrence
    (lib : Library) (body delimiter : string) (contentType : option string) :
  exec (source (Link lib)) body = None ->
  exec (source (OnDateSomebodyWrote lib)) body = None ->
  preprocess lib body delimiter contentType = Normal body.
Proof.
  intros Hl Ho. unfold preprocess.
  rewrite (replace_no_match _ _ _ Hl). simpl.
  destruct (negb _); [reflexivity|]. by apply replace_no_match.
Qed.

(** X15 at a body of two lines of text. *)
Lemma preprocess_keeps_witness :
  preprocess Sample.library ("hello" +:+ LF +:+ "bye") LF None
  = Normal ("hello" +:+ LF +:+ "bye").
Proof.
  apply (preprocess_keeps_a_body_without_occurrence Sample.library);
    vm_compute; reflexivity.
Defined.

(** ** postProcess *)

(** X16: the postprocessor returns for every body; what it returns is
    trimmed (trimming it again changes nothing), and it is the trimmed body
    itself when the normalized-link pattern does not occur in it. *)
Theorem postProcess_returns_a_trimmed_body (lib : Library) (body : string) :
  exists out, postProcess lib body = Normal out
              /\ trim out = out
              /\ (exec (source (NormalizedLink lib)) body = None -> out = trim body).
Proof.
  destruct (postProcess_returns lib body) as (restored & Hr & Hp).
  exists (trim restored). split; [assumption|]. split; [apply trim_idem|].
  intros Hn. rewrite (replace_no_match _ _ _ Hn) in Hr. by injection Hr as <-.
Qed.

(** ** extractFromPlain *)

(** X17: with a line bound that is not negative, the lines that the
    pipeline joins for the postprocessor are taken, in order, from the
    first [MaxLinesCount] lines of the preprocessed body: a line beyond the
    bound never reaches the output. *)
Theorem only_the_first_lines_are_kept (lib : Library) (body out : string) :
  (0 <= MaxLinesCount lib)%Z ->
  extractFromPlain lib body = Normal out ->
  exists pre survivors,
    preprocess lib body (findDelimiter lib body) None = Normal pre
    /\ survivors `sublist_of` take (Z.to_nat (MaxLinesCount lib)) (splitLines lib pre)
    /\ length survivors <= Z.to_nat (MaxLinesCount lib)
    /\ postProcess lib (join (findDelimiter lib body) survivors) = Normal out.
Proof.
  intros Hmax H. unfold extractFromPlain in H.
  destruct (preprocess lib body (findDelimiter lib body) None) as [pre| |] eqn:Ep;
    simpl in H; try discriminate.
  unfold numberValue in H. rewrite slice_to, take_min in H by assumption.
  destruct (markMessageLines lib _) as [markers| |]; simpl in H; try discriminate.
  destruct (processMarkedLines lib _ markers) as [r| |] eqn:Er; simpl in H; try discriminate.
  destruct (survivors_cut _ _ _ _ Er) as (a & b & Hab & Hr).
  exists pre, (lastMessageLines r). split; [reflexivity|].
  assert (Hsub : lastMessageLines r
                 `sublist_of` take (Z.to_nat (MaxLinesCount lib)) (splitLines lib pre)).
  { rewrite Hr. apply cut_sublist. lia. }
  split; [assumption|]. split; [|assumption].
  apply sublist_length in Hsub. rewrite length_take in Hsub. lia.
Qed.

(** X17 at a body of three lines and a bound of two. *)
Lemma only_the_first_lines_witness :
  let lib := {| Talon.QuotePattern := Sample.QuotePattern;
                Talon.Forward := Sample.Forward;
                Talon.SplitterPatterns := [Sample.OnDateSomebodyWrote; Sample.OriginalMessage];
                Talon.Link := {| source := Sample.Link; global := true |};
                Talon.OnDateSomebodyWrote :=
                  {| source := Sample.OnDateSomebodyWrote; global := true |};
                Talon.NormalizedLink := {| source := Sample.NormalizedLink; global := true |};
                Talon.ParenthesisLink := Sample.ParenthesisLink;
                Talon.Quotation := Sample.Quotation;
                Talon.EmptyQuotation := Sample.EmptyQuotation;
                Talon.MaxLinesCount := 2;
                Talon.SplitterMaxLines := 4;
                Talon.ContentTypeTextPlain := "text/plain";
                Talon.findDelimiter := Sample.findDelimiter;
                Talon.splitLines := Sample.splitLines;
                Talon.splitLines_length := 1 |} in
  let body := "one" +:+ LF +:+ "two" +:+ LF +:+ "three" in
  extractFromPlain lib body = Normal ("one" +:+ LF +:+ "two")
  /\ exists pre survivors,
       preprocess lib body (findDelimiter lib body) None = Normal pre
       /\ survivors `sublist_of` take 2 (splitLines lib pre)
       /\ length survivors <= 2
       /\ postProcess lib (join (findDelimiter lib body) survivors)
          = Normal ("one" +:+ LF +:+ "two").
Proof.
  intros lib body.
  assert (H : extractFromPlain lib body = Normal ("one" +:+ LF +:+ "two"))
    by (vm_compute; reflexivity).
  split; [exact H|].
  apply (only_the_first_lines_are_kept lib body _ ltac:(simpl; lia) H).
Defined.

(** X18: with a well-formed library (one link group, a [splitLines]
    declared with a parameter, group 1 of the quotation patterns always
    set) the preprocessor and the classifier return, and the pipeline
    throws exactly when the detector meets the inline-reply shape in the
    markers with no forwarded header leading them; on every other body it
    returns a string. *)
Theorem extraction_throws_exactly_on_inline_reply (lib : Library) (body : string) :
  wellFormed lib ->
  exists pre markers,
    preprocess lib body (findDelimiter lib body) None = Normal pre
    /\ markMessageLines lib (slice (splitLines lib pre) (numberValue 0)
                               (numberValue (MaxLinesCount lib))) = Normal markers
    /\ (extractFromPlain lib body = Throw TypeError <-> inlineReplyReached markers)
    /\ (~ inlineReplyReached markers -> exists out, extractFromPlain lib body = Normal out).
Proof.
  intros (Hlink & Harity & HQ & HE).
  destruct (preprocess_returns lib body (findDelimiter lib body) None Hlink) as [pre Hpre].
  destruct (markMessageLines_halts lib Harity
              (slice (splitLines lib pre) (numberValue 0) (numberValue (MaxLinesCount lib))))
    as [markers Hm].
  exists pre, markers. split; [assumption|]. split; [assumption|].
  unfold extractFromPlain. rewrite Hpre. cbn [bind]. rewrite Hm. cbn [bind].
  destruct (detector_throws_iff lib
              (slice (splitLines lib pre) (numberValue 0) (numberValue (MaxLinesCount lib)))
              markers HQ HE) as [Hiff Hret].
  split; [split|].
  - intros H. apply Hiff.
    destruct (processMarkedLines lib _ markers) as [r|e|]; cbn [bind] in H;
      [|by injection H as ->|discriminate].
    destruct (postProcess_returns lib
                (join (findDelimiter lib body) (lastMessageLines r))) as (x & _ & Hx).
    rewrite Hx in H. discriminate.
  - intros H. apply Hiff in H. by rewrite H.
  - intros Hn. destruct (Hret Hn) as [r Hr]. rewrite Hr. cbn [bind].
    destruct (postProcess_returns lib
                (join (findDelimiter lib body) (lastMessageLines r))) as (x & _ & Hx).
    eauto.
Qed.

(** X18 at the sample library and a reply between two quoted lines. *)
Lemma extraction_throws_witness :
  wellFormed Sample.library
  /\ exists pre markers,
    preprocess Sample.library ("> a" +:+ LF +:+ "b" +:+ LF +:+ "> c") LF None = Normal pre
    /\ markMessageLines Sample.library
         (slice (Sample.splitLines pre) (numberValue 0) (numberValue 1000)) = Normal markers
    /\ (extractFromPlain Sample.library ("> a" +:+ LF +:+ "b" +:+ LF +:+ "> c")
          = Throw TypeError <-> inlineReplyReached markers)
    /\ (~ inlineReplyReached markers ->
        exists out, extractFromPlain Sample.library ("> a" +:+ LF +:+ "b" +:+ LF +:+ "> c")
                    = Normal out).
Proof.
  assert (H : wellFormed Sample.library).
  { split; [reflexivity|]. split; [simpl; lia|].
    split; (split; vm_compute; repeat constructor;
            rewrite ?elem_of_cons, ?elem_of_nil; tauto). }
  split; [exact H|].
  exact (extraction_throws_exactly_on_inline_reply Sample.library
           ("> a" +:+ LF +:+ "b" +:+ LF +:+ "> c") H).
Defined.

End Coverage.
